(** * goscrobble: sinks, configuration and playback tracker

    A shallow embedding of the history sinks of goscrobble
    ([sink_csv.go], [sink_lastfm.go]), of [Config.ParseRegexes], and of the
    playback tracker described by the specification, together with the
    properties the specification states about them.

    Go values are modelled as follows.
    - [string] is a byte string: Rocq's [string], one [ascii] per byte.
    - [int], [int64] are [Z]; the only arithmetic on them in the modelled
      code is the page counter of the last.fm sink, whose 64-bit wrap-around
      is written out.
    - [time.Time] is an instant, the number of nanoseconds since the Unix
      epoch; [time.Duration] is a number of nanoseconds.
    - [error] is the inductive type [error]; a function returning
      [(T, error)] returns a [Result T].
    - the file system is a finite map from file names to files, with the
      permissions and the size bound by which [os.Open], [os.Create] and a
      write fail. *)

From Stdlib Require Import ZArith String Ascii List Lia Floats Uint63.
From Stdlib Require Import Numbers.DecimalString.
From stdpp Require Import base list gmap strings.

Open Scope Z_scope.

(** ** Bytes and strings *)

Definition LF : ascii := "010"%char.
Definition CR : ascii := "013"%char.
Definition DQUOTE : ascii := "034"%char.
Definition COMMA : ascii := ","%char.

Definition byte_eqb (a b : ascii) : bool := Ascii.eqb a b.

(** [strings.IndexByte(s, c) >= 0] *)
Fixpoint contains_byte (c : ascii) (s : string) : bool :=
  match s with
  | EmptyString => false
  | String a s' => byte_eqb a c || contains_byte c s'
  end.

(** The last byte of a string, if any. *)
Fixpoint last_byte (s : string) : option ascii :=
  match s with
  | EmptyString => None
  | String a EmptyString => Some a
  | String _ s' => last_byte s'
  end.

(** [s[:len(s)-1]] for a non-empty [s]. *)
Fixpoint drop_last (s : string) : string :=
  match s with
  | EmptyString => EmptyString
  | String a EmptyString => EmptyString
  | String a s' => String a (drop_last s')
  end.

Definition len (s : string) : Z := Z.of_nat (String.length s).

(** [strings.Join(elems, sep)] *)
Fixpoint strings_Join (elems : list string) (sep : string) : string :=
  match elems with
  | [] => ""
  | [e] => e
  | e :: rest => e +:+ sep +:+ strings_Join rest sep
  end.

(** [strings.HasPrefix(s, prefix)] *)
Definition strings_HasPrefix (s pre : string) : bool := String.prefix pre s.

(** [strings.Split(s, sep)] for a non-empty separator: the pieces of [s]
    between the non-overlapping occurrences of [sep], found left to right.
    [skip] counts the bytes of a matched separator still to be passed. *)
Fixpoint split_from (sep : string) (skip : nat) (cur : string) (s : string)
  : list string :=
  match s with
  | EmptyString => [cur]
  | String a s' =>
      match skip with
      | S k => split_from sep k cur s'
      | O =>
          if strings_HasPrefix s sep
          then cur :: split_from sep (String.length sep - 1) "" s'
          else split_from sep 0 (cur +:+ String a "") s'
      end
  end.

Definition strings_Split (s sep : string) : list string := split_from sep 0 "" s.

(** ** Errors and results *)

Inductive error : Type :=
| ErrNotExist                 (* os: the file does not exist *)
| ErrPermission               (* os: permission denied *)
| ErrNoSpace                  (* os: no space left for the bytes written *)
| ErrTooLong                  (* bufio.Scanner: token too long *)
| ErrBareQuote                (* encoding/csv: bare quote in non-quoted field *)
| ErrQuote                    (* encoding/csv: extraneous or missing quote *)
| ErrFieldCount               (* encoding/csv: wrong number of fields *)
| ErrDecode (what : string)   (* ScrobbleFromCSV: malformed line *)
| ErrRemote (code : Z).       (* last.fm client: request failed *)

Inductive Result (A : Type) : Type :=
| Ok (a : A)
| Err (e : error).
Arguments Ok {A} a.
Arguments Err {A} e.

Definition bind {A B} (r : Result A) (k : A -> Result B) : Result B :=
  match r with
  | Ok a => k a
  | Err e => Err e
  end.

Definition is_Ok {A} (r : Result A) : bool :=
  match r with
  | Ok _ => true
  | Err _ => false
  end.

Notation "x <-? r ; k" := (bind r (fun x => k))
  (at level 100, r at next level, right associativity).

(** [os.IsNotExist(err)] *)
Definition os_IsNotExist (e : error) : bool :=
  match e with
  | ErrNotExist => true
  | _ => false
  end.

(** ** Time *)

Definition Time := Z.
Definition Duration := Z.

Definition Second : Duration := 1000000000.

Definition Before (t u : Time) : bool := t <? u.
Definition After (t u : Time) : bool := u <? t.

(** [time.Unix(sec, 0)] and [t.Unix()] *)
Definition time_Unix (sec : Z) : Time := sec * Second.
Definition Unix (t : Time) : Z := t / Second.

(** ** The scrobble record *)

Record Scrobble : Type := mkScrobble {
  Artists : list string;
  Track : string;
  Album : string;
  PlayDuration : Duration;
  Timestamp : Time
}.

(** ** The file system *)

Record File : Type := mkFile {
  data : string;
  readable : bool;
  writable : bool
}.

(** The files by name, whether a file may be created, and the size up to
    which a file may be written, when there is such a bound. *)
Record FS : Type := mkFS {
  files : gmap string File;
  dir_writable : bool;
  quota : option Z
}.

(** [os.Open(name)]: the contents of the file opened for reading. *)
Definition os_Open (fs : FS) (name : string) : Result string :=
  match files fs !! name with
  | None => Err ErrNotExist
  | Some f => if readable f then Ok (data f) else Err ErrPermission
  end.

(** [os.Create(name)]: the file is created, or truncated when it exists;
    it is opened with [O_RDWR]. *)
Definition os_Create (fs : FS) (name : string) : Result FS :=
  match files fs !! name with
  | None =>
      if dir_writable fs
      then Ok (mkFS (<[name := mkFile "" true true]> (files fs))
                    (dir_writable fs) (quota fs))
      else Err ErrPermission
  | Some f =>
      if readable f && writable f
      then Ok (mkFS (<[name := mkFile "" (readable f) (writable f)]> (files fs))
                    (dir_writable fs) (quota fs))
      else Err ErrPermission
  end.

(** The bytes fit the size up to which a file may be written. *)
Definition fits (fs : FS) (bytes : string) : bool :=
  match quota fs with
  | Some q => len bytes <=? q
  | None => true
  end.

(** The bytes that a write stores: all of them when they fit, else those
    that fit. *)
Definition stored (fs : FS) (bytes : string) : string :=
  match quota fs with
  | Some q => if len bytes <=? q then bytes
              else String.substring 0 (Z.to_nat q) bytes
  | None => bytes
  end.

(** Writing [bytes] to the file just created under [name]: the file
    system after the write. *)
Definition file_write (fs : FS) (name : string) (bytes : string) : FS :=
  mkFS (alter (fun f => mkFile (data f +:+ stored fs bytes)
                               (readable f) (writable f))
              name (files fs))
       (dir_writable fs) (quota fs).

(** The error of that write: none when the bytes fit. *)
Definition write_error (fs : FS) (bytes : string) : option error :=
  if fits fs bytes then None else Some ErrNoSpace.

(** ** [bufio.Scanner] with the default split function [bufio.ScanLines] *)

Definition MaxScanTokenSize : Z := 64 * 1024.

(** The runs of bytes between line feeds; the last run is what follows the
    last line feed (empty when the input ends with one). *)
Fixpoint split_lines (s : string) : list string :=
  match s with
  | EmptyString => [""]
  | String a s' =>
      if byte_eqb a LF then "" :: split_lines s'
      else match split_lines s' with
           | l :: ls => String a l :: ls
           | [] => [String a ""]
           end
  end.

(** [dropCR]: one trailing carriage return is removed. *)
Definition dropCR (l : string) : string :=
  match last_byte l with
  | Some c => if byte_eqb c CR then drop_last l else l
  | None => l
  end.

(** At the end of the input no token is produced for an empty rest. *)
Fixpoint scan_tokens (runs : list string) : list string :=
  match runs with
  | [] => []
  | [l] => match l with EmptyString => [] | _ => [l] end
  | l :: ls => l :: scan_tokens ls
  end.

(** The loop [for scanner.Scan() { lines = append(lines, scanner.Text()) }]
    followed by [scanner.Err()]: a line that does not fit the buffer of
    [MaxScanTokenSize] bytes stops the scan with [ErrTooLong]. *)
Definition Scanner_lines (input : string) : Result (list string) :=
  let tokens := scan_tokens (split_lines input) in
  if forallb (fun l => len l <? MaxScanTokenSize) tokens
  then Ok (map dropCR tokens)
  else Err ErrTooLong.

(** ** [encoding/csv]: the writer, with its default settings
    ([Comma = ','], [UseCRLF = false]) *)

Definition bytes (l : list nat) : string :=
  fold_right (fun n s => String (ascii_of_nat n) s) EmptyString l.

(** The UTF-8 encodings of the code points for which [unicode.IsSpace]
    holds: U+0009..U+000D, U+0020, U+0085, U+00A0, U+1680, U+2000..U+200A,
    U+2028, U+2029, U+202F, U+205F, U+3000. *)
Definition space_runes : list string :=
  map bytes
    [ [9%nat]; [10%nat]; [11%nat]; [12%nat]; [13%nat]; [32%nat];
      [194; 133]%nat; [194; 160]%nat; [225; 154; 128]%nat;
      [226; 128; 128]%nat; [226; 128; 129]%nat; [226; 128; 130]%nat;
      [226; 128; 131]%nat; [226; 128; 132]%nat; [226; 128; 133]%nat;
      [226; 128; 134]%nat; [226; 128; 135]%nat; [226; 128; 136]%nat;
      [226; 128; 137]%nat; [226; 128; 138]%nat; [226; 128; 168]%nat;
      [226; 128; 169]%nat; [226; 128; 175]%nat; [226; 129; 159]%nat;
      [227; 128; 128]%nat ].

(** [unicode.IsSpace(r1)] for [r1, _ := utf8.DecodeRuneInString(field)] *)
Definition first_rune_IsSpace (field : string) : bool :=
  existsb (strings_HasPrefix field) space_runes.

(** [Writer.fieldNeedsQuotes] *)
Definition fieldNeedsQuotes (field : string) : bool :=
  if String.eqb field "" then false
  else if String.eqb field "\." then true
  else if contains_byte LF field || contains_byte CR field
          || contains_byte DQUOTE field || contains_byte COMMA field then true
  else first_rune_IsSpace field.

(** The body of a quoted field: a quote is doubled, every other byte is
    copied. *)
Fixpoint quote_body (field : string) : string :=
  match field with
  | EmptyString => EmptyString
  | String c rest =>
      if byte_eqb c DQUOTE
      then String DQUOTE (String DQUOTE (quote_body rest))
      else String c (quote_body rest)
  end.

Definition write_field (field : string) : string :=
  if fieldNeedsQuotes field
  then String DQUOTE (quote_body field +:+ String DQUOTE "")
  else field.

(** The fields of a record, a comma before each but the first. *)
Fixpoint write_fields (record : list string) : string :=
  match record with
  | [] => ""
  | [f] => write_field f
  | f :: rest => write_field f +:+ String COMMA (write_fields rest)
  end.

(** [Writer.Write(record)] *)
Definition Writer_Write (record : list string) : string :=
  write_fields record +:+ String LF "".

(** [Writer.WriteAll(records)]: the bytes written. *)
Fixpoint Writer_WriteAll (records : list (list string)) : string :=
  match records with
  | [] => ""
  | r :: rest => Writer_Write r +:+ Writer_WriteAll rest
  end.

(** ** [encoding/csv]: the reader, with its default settings
    ([Comma = ','], no comment character, [FieldsPerRecord = 0],
    [LazyQuotes = false], [TrimLeadingSpace = false]) *)

(** [Reader.readLine] hands out the input line by line; a carriage return
    before a line feed is removed, and so is one at the very end of the
    input. *)
Fixpoint readLine_normalize (s : string) : string :=
  match s with
  | EmptyString => EmptyString
  | String c rest =>
      if byte_eqb c CR then
        match rest with
        | EmptyString => EmptyString
        | String d rest' =>
            if byte_eqb d LF then String LF (readLine_normalize rest')
            else String c (readLine_normalize rest)
        end
      else String c (readLine_normalize rest)
  end.

(** Where [Reader.readRecord] stands in the input. *)
Inductive rstate : Type :=
| RecordStart   (* at the start of a line, no record begun *)
| FieldStart    (* after a comma *)
| Unquoted      (* in a non-quoted field *)
| Quoted        (* in a quoted field *)
| QuoteSeen.    (* after a quote met in a quoted field *)

(** A record is complete: [FieldsPerRecord] is set by the first record and
    checked on the later ones. *)
Definition end_record (fields : list string) (records : list (list string))
    (fpr : option nat) : Result (list (list string) * option nat) :=
  match fpr with
  | None => Ok (records ++ [fields], Some (length fields))
  | Some n =>
      if Nat.eqb n (length fields) then Ok (records ++ [fields], fpr)
      else Err ErrFieldCount
  end.

Fixpoint parse_csv (s : string) (st : rstate) (field : string)
    (fields : list string) (records : list (list string)) (fpr : option nat)
  : Result (list (list string)) :=
  match s with
  | EmptyString =>
      match st with
      | RecordStart => Ok records
      | Quoted => Err ErrQuote
      | FieldStart | Unquoted | QuoteSeen =>
          r <-? end_record (fields ++ [field]) records fpr; Ok (fst r)
      end
  | String c rest =>
      match st with
      | RecordStart =>
          if byte_eqb c LF then parse_csv rest RecordStart "" [] records fpr
          else if byte_eqb c DQUOTE then parse_csv rest Quoted "" fields records fpr
          else if byte_eqb c COMMA
          then parse_csv rest FieldStart "" (fields ++ [""]) records fpr
          else parse_csv rest Unquoted (String c "") fields records fpr
      | FieldStart =>
          if byte_eqb c LF then
            r <-? end_record (fields ++ [""]) records fpr;
            parse_csv rest RecordStart "" [] (fst r) (snd r)
          else if byte_eqb c DQUOTE then parse_csv rest Quoted "" fields records fpr
          else if byte_eqb c COMMA
          then parse_csv rest FieldStart "" (fields ++ [""]) records fpr
          else parse_csv rest Unquoted (String c "") fields records fpr
      | Unquoted =>
          if byte_eqb c LF then
            r <-? end_record (fields ++ [field]) records fpr;
            parse_csv rest RecordStart "" [] (fst r) (snd r)
          else if byte_eqb c COMMA
          then parse_csv rest FieldStart "" (fields ++ [field]) records fpr
          else if byte_eqb c DQUOTE then Err ErrBareQuote
          else parse_csv rest Unquoted (field +:+ String c "") fields records fpr
      | Quoted =>
          if byte_eqb c DQUOTE then parse_csv rest QuoteSeen field fields records fpr
          else parse_csv rest Quoted (field +:+ String c "") fields records fpr
      | QuoteSeen =>
          if byte_eqb c DQUOTE
          then parse_csv rest Quoted (field +:+ String DQUOTE "") fields records fpr
          else if byte_eqb c COMMA
          then parse_csv rest FieldStart "" (fields ++ [field]) records fpr
          else if byte_eqb c LF then
            r <-? end_record (fields ++ [field]) records fpr;
            parse_csv rest RecordStart "" [] (fst r) (snd r)
          else Err ErrQuote
      end
  end.

(** [csv.NewReader(file).ReadAll()] *)
Definition Reader_ReadAll (input : string) : Result (list (list string)) :=
  parse_csv (readLine_normalize input) RecordStart "" [] [] None.

(** The records that can be read back: all of [n] fields, [n] not zero,
    and none made of a single empty field. *)
Definition readable_records (n : nat) (rs : list (list string)) : Prop :=
  n <> 0%nat /\ Forall (fun r => length r = n /\ r <> [""]) rs.

(** ** The CSV sink ([sink_csv.go]) *)

Record CSVSink : Type := mkCSVSink { Filename : string }.

Section CSVSinkOps.

(** The two functions of the scrobble model that the sink calls:
    [Scrobble.ToStringSlice] and [ScrobbleFromCSV]. *)
Variable ToStringSlice : Scrobble -> list string.
Variable ScrobbleFromCSV : string -> Result Scrobble.

(** [func (s CSVSink) NowPlaying(_ Scrobble) error] *)
Definition CSVSink_NowPlaying (s : CSVSink) (scrobble : Scrobble) (fs : FS)
  : FS * option error :=
  (fs, None).

(** The records already in the file: those read by [ReadAll] when the
    file opens, none when it does not exist. *)
Definition existing_records (s : CSVSink) (fs : FS)
  : Result (list (list string)) :=
  match os_Open fs (Filename s) with
  | Ok file => Reader_ReadAll file
  | Err err => if os_IsNotExist err then Ok [] else Err err
  end.

(** [func (s CSVSink) Scrobble(scrobble Scrobble) error] *)
Definition CSVSink_Scrobble (s : CSVSink) (scrobble : Scrobble) (fs : FS)
  : FS * option error :=
  match existing_records s fs with
  | Err err => (fs, Some err)
  | Ok scrobbles =>
      let scrobbles := scrobbles ++ [ToStringSlice scrobble] in
      match os_Create fs (Filename s) with
      | Err err => (fs, Some err)
      | Ok fs' =>
          (file_write fs' (Filename s) (Writer_WriteAll scrobbles),
           write_error fs' (Writer_WriteAll scrobbles))
      end
  end.

(** The loop over the reversed lines of [GetScrobbles]; [scrobbles] is
    the slice built so far. *)
Fixpoint collect (limit : Z) (from to : Time) (lines : list string)
    (scrobbles : list Scrobble) : Result (list Scrobble) :=
  match lines with
  | [] => Ok scrobbles
  | line :: rest =>
      match ScrobbleFromCSV line with
      | Err err => Err err
      | Ok scrobble =>
          if Before (Timestamp scrobble) from
          then collect limit from to rest scrobbles
          else if After (Timestamp scrobble) to
          then Ok scrobbles
          else if (limit <=? 0) || (Z.of_nat (length scrobbles) <? limit)
          then collect limit from to rest (scrobbles ++ [scrobble])
          else Ok scrobbles
      end
  end.

(** [func (s CSVSink) GetScrobbles(limit int, from, to time.Time)
    ([]Scrobble, error)] *)
Definition CSVSink_GetScrobbles (s : CSVSink) (limit : Z) (from to : Time)
    (fs : FS) : Result (list Scrobble) :=
  file <-? os_Open fs (Filename s);
  lines <-? Scanner_lines file;
  collect limit from to (reverse lines) [].

End CSVSinkOps.

(** ** The last.fm sink ([sink_lastfm.go]) *)

(** [lastfm.P], a [map[string]interface{}]: the values put in it are
    strings and integers. *)
Inductive Value : Type :=
| VString (s : string)
| VInt (z : Z).

Abbreviation P := (gmap string Value).

(** One entry of [page.RecentTracks.Tracks], with the fields the sink
    reads: [track.Artist.Name], [track.Name], [track.Album.Name] and
    [track.Date.UTS]. *)
Record RecentTrack : Type := mkRecentTrack {
  Artist_Name : string;
  Name : string;
  Album_Name : string;
  Date_UTS : Z
}.

(** [page.RecentTracks] *)
Record RecentTracks : Type := mkRecentTracks {
  TotalPages : Z;
  Tracks : list RecentTrack
}.

(** [lastfm.Client]: each method answers a request made of its
    parameters. *)
Record Client : Type := mkClient {
  TrackUpdateNowPlaying : P -> option error;
  TrackScrobble : P -> option error;
  UserGetRecentTracks : P -> Result RecentTracks
}.

Record LastFmSink : Type := mkLastFmSink {
  LastFmClient : Client;
  SessionKey : string;
  Username : string
}.

(** [float64(z)] for an integer below [2^63] in absolute value. *)
Definition float_of_Z (z : Z) : float :=
  if z <? 0 then PrimFloat.opp (PrimFloat.of_uint63 (Uint63.of_Z (- z)))
  else PrimFloat.of_uint63 (Uint63.of_Z z).

(** [int(f)] for a finite [f]: the fractional part is discarded. *)
Definition int_of_float (f : float) : Z :=
  match Prim2SF f with
  | S754_finite s m e =>
      let v := if 0 <=? e then Z.shiftl (Z.pos m) e
               else Z.shiftr (Z.pos m) (- e) in
      if s then - v else v
  | _ => 0
  end.

(** [func (d Duration) Seconds() float64]:
    [sec := d / Second; nsec := d % Second;
     return float64(sec) + float64(nsec)/1e9] *)
Definition Duration_Seconds (d : Duration) : float :=
  PrimFloat.add (float_of_Z (Z.quot d Second))
                (PrimFloat.div (float_of_Z (Z.rem d Second)) 1e9%float).

(** [int(d.Seconds())] *)
Definition Seconds_int (d : Duration) : Z := int_of_float (Duration_Seconds d).

(** 64-bit two's complement wrap-around of [int]. *)
Definition wrap64 (z : Z) : Z := (z + 2 ^ 63) mod 2 ^ 64 - 2 ^ 63.

Definition max_int64 : Z := 2 ^ 63 - 1.

Section LastFmSinkOps.

(** [Scrobble.JoinArtists], of the scrobble model. *)
Variable JoinArtists : Scrobble -> string.





End LastFmSinkOps.

(** The parameters of the request for one page of recent tracks. *)
Definition RecentTracks_params (s : LastFmSink) (limit : Z) (from to : Time)
    (currentPage : Z) : P :=
  <["limit" := VInt (Z.min limit 200)]>
  (<["user" := VString (Username s)]>
  (<["page" := VInt currentPage]>
  (<["from" := VInt (Unix from)]>
  (<["extended" := VInt 1]>
  (<["to" := VInt (Unix to)]> ∅))))).

(** The scrobble built from one recent track. *)
Definition scrobble_of_track (track : RecentTrack) : Scrobble :=
  mkScrobble (strings_Split (Artist_Name track) ", ")
             (Name track) (Album_Name track) 0 (time_Unix (Date_UTS track)).

(** The inner loop over the tracks of a page; the flag tells that
    [break outer] was reached. *)
Fixpoint add_tracks (limit : Z) (tracks : list RecentTrack)
    (scrobbles : list Scrobble) : list Scrobble * bool :=
  match tracks with
  | [] => (scrobbles, false)
  | track :: rest =>
      if (limit <=? 0) || (Z.of_nat (length scrobbles) <? limit)
      then add_tracks limit rest (scrobbles ++ [scrobble_of_track track])
      else (scrobbles, true)
  end.

(** The loop [outer] of [GetScrobbles]. Each turn makes one request;
    [fuel] bounds the number of turns, and [None] tells that it ran out. *)
Fixpoint pages_loop (fuel : nat) (s : LastFmSink) (limit : Z) (from to : Time)
    (currentPage totalPages : Z) (scrobbles : list Scrobble)
  : option (Result (list Scrobble)) :=
  match fuel with
  | O => None
  | S fuel' =>
      match UserGetRecentTracks (LastFmClient s)
              (RecentTracks_params s limit from to currentPage) with
      | Err err => Some (Err err)
      | Ok page =>
          let totalPages :=
            if negb (TotalPages page =? totalPages) then TotalPages page
            else totalPages in
          match add_tracks limit (Tracks page) scrobbles with
          | (scrobbles', true) => Some (Ok scrobbles')
          | (scrobbles', false) =>
              if totalPages <=? currentPage then Some (Ok scrobbles')
              else pages_loop fuel' s limit from to
                     (wrap64 (currentPage + 1)) totalPages scrobbles'
          end
      end
  end.

(** [func (s LastFmSink) GetScrobbles(limit int, from, to time.Time)
    ([]Scrobble, error)], run for at most [fuel] requests. *)
Definition LastFmSink_GetScrobbles (fuel : nat) (s : LastFmSink) (limit : Z)
    (from to : Time) : option (Result (list Scrobble)) :=
  pages_loop fuel s limit from to 1 1 [].

(** The first [limit] elements of a list when [limit] is positive, the
    whole list when it is not: what a limit lets through. *)
Definition up_to {A} (limit : Z) (l : list A) : list A :=
  if limit <=? 0 then l else take (Z.to_nat limit) l.

(** ** Configuration: [Config.ParseRegexes] *)

Module config.

Record RegexReplace : Type := mkRegexReplace {
  Match : string;
  Replace : string;
  Artist : bool;
  Track : bool;
  Album : bool
}.

Record Config : Type := mkConfig {
  PollRate : Z;
  MinPlaybackDuration : Z;
  MinPlaybackPercent : Z;
  NotifyOnScrobble : bool;
  NotifyOnError : bool;
  Blacklist : list string;
  Regexes : list RegexReplace
}.

Section Parse.

(** [*regexp.Regexp] and [regexp.Compile] *)
Variable Regexp : Type.
Variable regexp_Compile : string -> Result Regexp.

Record ParsedRegexReplace : Type := mkParsedRegexReplace {
  PMatch : Regexp;
  PReplace : string;
  PArtist : bool;
  PTrack : bool;
  PAlbum : bool
}.

(** One turn of the loop of [ParseRegexes]: a rule whose expression
    does not compile is passed over ([continue]), the others are
    appended. *)
Definition parse_step (parsed : list ParsedRegexReplace) (r : RegexReplace)
  : list ParsedRegexReplace :=
  match regexp_Compile (Match r) with
  | Err _ => parsed
  | Ok m =>
      parsed ++ [mkParsedRegexReplace m (Replace r) (Artist r) (Track r) (Album r)]
  end.

(** [func (c Config) ParseRegexes() []ParsedRegexReplace] *)
Definition ParseRegexes (c : Config) : list ParsedRegexReplace :=
  fold_left parse_step (Regexes c) [].

(** A parsed rule comes from a configured rule: its expression is the one
    the rule's match pattern compiles to, and the replacement and the three
    target flags are the rule's. *)
Definition parsed_from (r : RegexReplace) (p : ParsedRegexReplace) : Prop :=
  regexp_Compile (Match r) = Ok (PMatch p) /\
  PReplace p = Replace r /\
  PArtist p = Artist r /\
  PTrack p = Track r /\
  PAlbum p = Album r.

(** The match pattern of the rule compiles. *)
Definition compiles (r : RegexReplace) : bool :=
  is_Ok (regexp_Compile (Match r)).

End Parse.

End config.

(** ** The playback tracker *)

Module tracker.

(** Modelled from the spec: the identity of a track, the fields on which
    two plays count as the same track (section 3); the tracker is not
    among the source files. *)
Record Identity : Type := mkIdentity {
  IArtists : list string;
  ITrack : string;
  IAlbum : string
}.

#[global] Instance Identity_eq_dec : EqDecision Identity.
Proof. solve_decision. Defined.

(** Modelled from the spec: what a source reports when something is
    playing (section 4.2): the identity, the total duration of the track
    when known, the elapsed position and the play/pause flag. *)
Record Snapshot : Type := mkSnapshot {
  identity : Identity;
  total : option Duration;
  position : Duration;
  playing : bool
}.

(** Modelled from the spec: the input of one tick: the time of the tick,
    the time elapsed since the previous tick, and the snapshot of the
    source, [None] when nothing is playing. *)
Record Tick : Type := mkTick {
  now : Time;
  elapsed : Duration;
  snapshot : option Snapshot
}.

(** Modelled from the spec: the playback session (section 3): the
    identity as reported, the candidate the transformer made of it, the
    accumulated play time, the start of the play and the two flags. *)
Record PlaybackSession : Type := mkSession {
  reported : Identity;
  candidate : Identity;
  accumulated : Duration;
  started : Time;
  now_playing_emitted : bool;
  scrobbled : bool
}.

(** Modelled from the spec: the two events a tracker emits. *)
Inductive Event : Type :=
| NowPlayingEvent (s : Scrobble)
| ScrobbleEvent (s : Scrobble).

Section Policy.

(** The policy: the two thresholds of the configuration, the floor at or
    below which a track is exempt from the percent rule, and the
    transformer, which drops a candidate or rewrites it. *)
Variable MinPlaybackDuration : Duration.
Variable MinPlaybackPercent : Z.
Variable ShortTrackFloor : Duration.
Variable Transform : Identity -> option Identity.

(** Modelled from the spec: the threshold of step 3 of section 4.2. *)
Definition threshold (total : option Duration) : Duration :=
  match total with
  | Some t =>
      if ShortTrackFloor <? t
      then Z.min MinPlaybackDuration (MinPlaybackPercent * t / 100)
      else MinPlaybackDuration
  | None => MinPlaybackDuration
  end.

(** Modelled from the spec: the record an event carries: the candidate
    with the start of the play and the accumulated play time. *)
Definition event_scrobble (sess : PlaybackSession) : Scrobble :=
  mkScrobble (IArtists (candidate sess)) (ITrack (candidate sess))
             (IAlbum (candidate sess)) (accumulated sess) (started sess).

(** Modelled from the spec: step 1, no session is active: a snapshot
    marked playing whose candidate passes the transformer opens a
    session with no accumulated time and is announced at once. *)
Definition open_session (t : Tick) (snap : Snapshot)
  : option PlaybackSession * list Event :=
  if playing snap then
    match Transform (identity snap) with
    | Some c =>
        let sess := mkSession (identity snap) c 0 (now t) true false in
        (Some sess, [NowPlayingEvent (event_scrobble sess)])
    | None => (None, [])
    end
  else (None, []).

(** Modelled from the spec: step 2, the snapshot has the identity of the
    session: play time accumulates when playing and is frozen when
    paused; a negative delta is clamped to zero. *)
Definition advance (t : Tick) (snap : Snapshot) (sess : PlaybackSession)
  : PlaybackSession :=
  if playing snap
  then mkSession (reported sess) (candidate sess)
                 (accumulated sess + Z.max 0 (elapsed t)) (started sess)
                 (now_playing_emitted sess) (scrobbled sess)
  else sess.

(** Modelled from the spec: step 3, the threshold check, made only
    while the session has not been scrobbled. *)
Definition check_threshold (snap : Snapshot) (sess : PlaybackSession)
  : PlaybackSession * list Event :=
  if scrobbled sess then (sess, [])
  else if threshold (total snap) <=? accumulated sess
  then (mkSession (reported sess) (candidate sess) (accumulated sess)
                  (started sess) (now_playing_emitted sess) true,
        [ScrobbleEvent (event_scrobble sess)])
  else (sess, []).

(** Modelled from the spec: one tick of the state machine of section
    4.2. Nothing playing, or another identity, discards the session
    (step 4); another identity is then evaluated by step 1 in the same
    tick. *)
Definition step (st : option PlaybackSession) (t : Tick)
  : option PlaybackSession * list Event :=
  match snapshot t with
  | None => (None, [])
  | Some snap =>
      match st with
      | Some sess =>
          if decide (reported sess = identity snap)
          then let r := check_threshold snap (advance t snap sess) in
               (Some (fst r), snd r)
          else open_session t snap
      | None => open_session t snap
      end
  end.

(** Modelled from the spec: the tracker fed with the ticks in turn; the
    events are collected in the order of their emission. *)
Fixpoint run (st : option PlaybackSession) (ticks : list Tick)
  : option PlaybackSession * list Event :=
  match ticks with
  | [] => (st, [])
  | t :: rest =>
      let r := step st t in
      let r' := run (fst r) rest in
      (fst r', snd r ++ snd r')
  end.

End Policy.

Definition is_scrobble (e : Event) : bool :=
  match e with
  | ScrobbleEvent _ => true
  | NowPlayingEvent _ => false
  end.

Definition count_scrobbles (events : list Event) : nat :=
  length (filter (fun e => is_scrobble e = true) events).

(** The number of scrobble events that ticks of identity [i] may still
    bring from the state [st]: none when the session held is of identity
    [i] and scrobbled, one otherwise. *)
Definition budget (i : Identity) (st : option PlaybackSession) : nat :=
  match st with
  | Some sess =>
      if decide (reported sess = i)
      then (if scrobbled sess then 0%nat else 1%nat)
      else 1%nat
  | None => 1%nat
  end.

(** The tick reports a snapshot of identity [i]. *)
Definition reports (i : Identity) (t : Tick) : bool :=
  match snapshot t with
  | Some snap => bool_decide (identity snap = i)
  | None => false
  end.

End tracker.

(** ** A line format for the examples *)

Definition print_Z (z : Z) : string := NilZero.string_of_int (Z.to_int z).

Definition parse_Z (s : string) : option Z :=
  match NilZero.int_of_string s with
  | Some i => Some (Z.of_int i)
  | None => None
  end.

(** Modelled from the spec: [Scrobble.JoinArtists], which is not among the
    source files: the artist list joined into one string. The separator is
    the one at which the last.fm sink splits the artist name it reads
    back. *)
Definition ref_JoinArtists (s : Scrobble) : string :=
  strings_Join (Artists s) ", ".

(** Modelled from the spec: [Scrobble.ToStringSlice], which is not among the
    source files. The fields of a line in their fixed order: the joined
    artist list, the track title, the album title, the play duration and
    the timestamp; the two numbers are written in full, in nanoseconds. *)
Definition ref_ToStringSlice (s : Scrobble) : list string :=
  [ ref_JoinArtists s; Track s; Album s;
    print_Z (PlayDuration s); print_Z (Timestamp s) ].

(** Modelled from the spec: [ScrobbleFromCSV], which is not among the source
    files. One line is read as one CSV record of five fields; anything else
    is a decoding error. *)
Definition ref_ScrobbleFromCSV (line : string) : Result Scrobble :=
  records <-? Reader_ReadAll line;
  match records with
  | [[artists; track; album; duration; timestamp]] =>
      match parse_Z duration, parse_Z timestamp with
      | Some d, Some t =>
          Ok (mkScrobble (strings_Split artists ", ") track album d t)
      | _, _ => Err (ErrDecode "number")
      end
  | _ => Err (ErrDecode "fields")
  end.

(** ** Histories used in the examples *)

Definition history_sink : CSVSink := mkCSVSink "scrobbles.csv".

(** The text made of the given lines, each ended by a line feed. *)
Fixpoint text_of_lines (lines : list string) : string :=
  match lines with
  | [] => ""
  | l :: rest => l +:+ String LF (text_of_lines rest)
  end.

(** A file system that holds the history file with the given lines. *)
Definition fs_of_lines (lines : list string) : FS :=
  mkFS {[ "scrobbles.csv" := mkFile (text_of_lines lines) true true ]}
       true None.

(** The same where no file may grow beyond [q] bytes. *)
Definition fs_of_lines_quota (lines : list string) (q : Z) : FS :=
  mkFS {[ "scrobbles.csv" := mkFile (text_of_lines lines) true true ]}
       true (Some q).

(** A file system without a history file. *)
Definition fs_fresh : FS := mkFS ∅ true None.

Definition far_future : Time := time_Unix 253402300799.

Definition play_older : Scrobble :=
  mkScrobble ["Björk"] "Jóga" "Homogenic" (305 * Second) (time_Unix 100).

Definition play_newer : Scrobble :=
  mkScrobble ["Sigur Rós"; "Jónsi"] "Hoppípolla" "Takk" (269 * Second)
             (time_Unix 200).

(** A play that began one day before the Unix epoch. *)
Definition play_before_epoch : Scrobble :=
  mkScrobble ["Édith Piaf"] "Milord" "Milord" (270 * Second)
             (time_Unix (-86400)).

Definition line_older : string :=
  "Björk,Jóga,Homogenic,305000000000,100000000000".

Definition line_newer : string :=
  String DQUOTE ("Sigur Rós, Jónsi" +:+ String DQUOTE
    ",Hoppípolla,Takk,269000000000,200000000000").

Definition line_malformed : string := "not a scrobble".

(** A line that is not CSV: a quote inside a field that is not quoted. *)
Definition line_bare_quote : string := "Bj" +:+ String DQUOTE "rk,Army of Me".

(** A file system whose history file may not be read. *)
Definition fs_unreadable : FS :=
  mkFS {[ "scrobbles.csv" := mkFile (text_of_lines [line_older]) false true ]}
       true None.


(** ** A last.fm service used in the examples *)

Definition recent (artist name : string) (uts : Z) : RecentTrack :=
  mkRecentTrack artist name "Album" uts.

(** Five recent tracks served on three pages of at most two tracks. *)
Definition service_pages : list RecentTracks :=
  [ mkRecentTracks 3 [recent "A, B" "five" 500; recent "A" "four" 400];
    mkRecentTracks 3 [recent "A" "three" 300; recent "A" "two" 200];
    mkRecentTracks 3 [recent "A" "one" 100] ].

(** The page asked for by the parameter [page]; a request without a page,
    or for a page that does not exist, fails. *)
Definition service_recent_tracks (p : P) : Result RecentTracks :=
  match p !! "page" with
  | Some (VInt n) =>
      if (1 <=? n) && (n <=? 3)
      then match service_pages !! Z.to_nat (n - 1) with
           | Some page => Ok page
           | None => Err (ErrRemote 6)
           end
      else Err (ErrRemote 6)
  | _ => Err (ErrRemote 6)
  end.

Definition service_sink : LastFmSink :=
  mkLastFmSink
    (mkClient (fun _ => None) (fun _ => None) service_recent_tracks)
    "session" "user".

(** ** A stand-in for [regexp.Compile] used in the examples: an expression
    with an opening parenthesis and no closing one does not compile, every
    other one compiles to itself. *)
Definition compile_example (expr : string) : Result string :=
  if contains_byte "("%char expr && negb (contains_byte ")"%char expr)
  then Err (ErrDecode "missing closing )")
  else Ok expr.

Definition config_example : config.Config :=
  config.mkConfig 2 240 50 false true []
    [ config.mkRegexReplace " \(Remastered.*\)" "" false true false;
      config.mkRegexReplace "(feat" "" true false false;
      config.mkRegexReplace " - Single$" "" false false true ].

(** ** A playback used in the examples: a track of 400 s polled every
    100 s under the policy of 240 s or 50 percent, with a floor of 30 s
    and a transformer that lets every candidate pass unchanged. *)
Definition imagine : tracker.Identity :=
  tracker.mkIdentity ["John Lennon"] "Imagine" "Imagine".

Definition playing_tick (at_s : Z) : tracker.Tick :=
  tracker.mkTick (time_Unix at_s) (100 * Second)
    (Some (tracker.mkSnapshot imagine (Some (400 * Second))
             ((at_s - 1000) * Second) true)).

Definition imagine_ticks : list tracker.Tick :=
  [ playing_tick 1000; playing_tick 1100; playing_tick 1200;
    playing_tick 1300; playing_tick 1400 ].

Definition paused_tick (at_s : Z) : tracker.Tick :=
  tracker.mkTick (time_Unix at_s) (100 * Second)
    (Some (tracker.mkSnapshot imagine (Some (400 * Second))
             ((at_s - 1000) * Second) false)).

Definition jealous_guy : tracker.Identity :=
  tracker.mkIdentity ["John Lennon"] "Jealous Guy" "Imagine".

Definition jealous_guy_tick (at_s : Z) : tracker.Tick :=
  tracker.mkTick (time_Unix at_s) (100 * Second)
    (Some (tracker.mkSnapshot jealous_guy (Some (254 * Second)) 0 true)).

Definition run_example :=
  tracker.run (240 * Second) 50 (30 * Second) (fun i => Some i).

(** * Properties *)

(** ** Strings *)

Lemma append_cons (a : ascii) (s t : string) :
  String a s +:+ t = String a (s +:+ t).
Proof. reflexivity. Qed.

Lemma append_nil_l (t : string) : "" +:+ t = t.
Proof. reflexivity. Qed.

Lemma append_nil_r (s : string) : s +:+ "" = s.
Proof.
  induction s as [|a s IH]; [reflexivity |].
  by rewrite append_cons, IH.
Qed.

Lemma append_assoc (a b c : string) : (a +:+ b) +:+ c = a +:+ (b +:+ c).
Proof.
  induction a as [|x a IH]; [reflexivity |].
  by rewrite !append_cons, IH.
Qed.

Lemma contains_byte_app (c : ascii) (a b : string) :
  contains_byte c (a +:+ b) = contains_byte c a || contains_byte c b.
Proof.
  induction a as [|x a IH]; [reflexivity |].
  rewrite append_cons. simpl. rewrite IH. by rewrite orb_assoc.
Qed.

Lemma last_byte_cons (x : ascii) (s : string) :
  last_byte (String x s) =
  match s with EmptyString => Some x | _ => last_byte s end.
Proof. by destruct s. Qed.

Lemma last_byte_app (a b : string) :
  last_byte (a +:+ b) =
  match b with EmptyString => last_byte a | _ => last_byte b end.
Proof.
  induction a as [|x a IH].
  - rewrite append_nil_l. by destruct b.
  - rewrite append_cons, last_byte_cons, IH.
    destruct b as [|y b].
    + rewrite append_nil_r. by destruct a.
    + destruct a; reflexivity.
Qed.

Lemma last_byte_contains (c : ascii) (s : string) :
  last_byte s = Some c -> contains_byte c s = true.
Proof.
  induction s as [|a s IH]; [discriminate |].
  rewrite last_byte_cons. simpl. destruct s as [|b s].
  - intros [= ->]. unfold byte_eqb. by rewrite Ascii.eqb_refl.
  - intros H. rewrite (IH H). apply orb_true_r.
Qed.

(** ** Lines *)

Lemma split_lines_cons (x : string) :
  exists l ls, split_lines x = l :: ls.
Proof.
  induction x as [|a x (l & ls & IH)]; simpl; [eauto |].
  destruct (byte_eqb a LF); [eauto |]. rewrite IH. eauto.
Qed.

Lemma split_lines_LF (x y : string) :
  split_lines (x +:+ String LF y) = split_lines x ++ split_lines y.
Proof.
  induction x as [|a x IH].
  - reflexivity.
  - rewrite append_cons. simpl. destruct (byte_eqb a LF).
    + by rewrite IH.
    + rewrite IH. destruct (split_lines_cons x) as (l & ls & ->). reflexivity.
Qed.

Lemma split_lines_no_LF (l : string) :
  contains_byte LF l = false -> split_lines l = [l].
Proof.
  induction l as [|a l IH]; simpl; [reflexivity |].
  intros H. apply orb_false_iff in H as [Ha Hl].
  rewrite Ha, (IH Hl). reflexivity.
Qed.

Lemma scan_tokens_app_last (runs : list string) (l : string) :
  scan_tokens (runs ++ [l; ""]) = runs ++ [l].
Proof.
  induction runs as [|r runs IH]; simpl; [reflexivity |].
  rewrite IH. by destruct runs.
Qed.

Lemma scan_tokens_terminated (runs : list string) :
  scan_tokens (runs ++ [""]) = runs.
Proof.
  induction runs as [|r runs IH]; simpl; [reflexivity |].
  rewrite IH. by destruct runs.
Qed.

(** A text that is empty or ends with a line feed, followed by one more
    line: the tokens are those of the text and the line. *)
Lemma scan_tokens_append_line (text l : string) :
  (text = "" \/ exists x, text = x +:+ String LF "") ->
  contains_byte LF l = false ->
  scan_tokens (split_lines (text +:+ (l +:+ String LF ""))) =
  scan_tokens (split_lines text) ++ [l].
Proof.
  intros Htext Hl.
  assert (Hline : split_lines (l +:+ String LF "") = [l; ""]).
  { rewrite split_lines_LF, (split_lines_no_LF l Hl). reflexivity. }
  destruct Htext as [-> | [x ->]].
  - rewrite append_nil_l, Hline. simpl. by destruct l.
  - rewrite append_assoc, append_cons, append_nil_l.
    rewrite (split_lines_LF x (l +:+ String LF "")), Hline.
    rewrite (split_lines_LF x ""). simpl.
    rewrite scan_tokens_app_last, scan_tokens_terminated. reflexivity.
Qed.

(** ** The CSV writer *)

Lemma Writer_WriteAll_app (a b : list (list string)) :
  Writer_WriteAll (a ++ b) = Writer_WriteAll a +:+ Writer_WriteAll b.
Proof.
  induction a as [|r a IH]; simpl; [reflexivity |].
  by rewrite IH, append_assoc.
Qed.

Lemma Writer_WriteAll_one (r : list string) :
  Writer_WriteAll [r] = write_fields r +:+ String LF "".
Proof. simpl. by rewrite append_nil_r. Qed.

(** What [WriteAll] writes is empty or ends with a line feed. *)
Lemma Writer_WriteAll_terminated (records : list (list string)) :
  Writer_WriteAll records = "" \/
  exists x, Writer_WriteAll records = x +:+ String LF "".
Proof.
  destruct records as [|r records _] using rev_ind; [by left | right].
  rewrite Writer_WriteAll_app, Writer_WriteAll_one, <- append_assoc. eauto.
Qed.

Lemma fieldNeedsQuotes_false (f : string) :
  fieldNeedsQuotes f = false ->
  contains_byte LF f = false /\ contains_byte CR f = false.
Proof.
  unfold fieldNeedsQuotes.
  destruct (String.eqb f "") eqn:He.
  - apply String.eqb_eq in He as ->. intros _. split; reflexivity.
  - destruct (String.eqb f "\."); [discriminate |].
    destruct (contains_byte LF f); [discriminate |].
    destruct (contains_byte CR f); [discriminate |].
    intros _. split; reflexivity.
Qed.

Lemma contains_byte_quote_body (c : ascii) (f : string) :
  byte_eqb DQUOTE c = false ->
  contains_byte c (quote_body f) = contains_byte c f.
Proof.
  intros Hc. induction f as [|a f IH]; [reflexivity |].
  cbn [quote_body contains_byte].
  destruct (byte_eqb a DQUOTE) eqn:Ha; cbn [contains_byte]; rewrite IH.
  - apply Ascii.eqb_eq in Ha. subst a. by rewrite Hc.
  - reflexivity.
Qed.

Lemma contains_byte_write_field (f : string) :
  contains_byte LF f = false -> contains_byte LF (write_field f) = false.
Proof.
  intros Hf. unfold write_field. destruct (fieldNeedsQuotes f); [| exact Hf].
  simpl. rewrite contains_byte_app, contains_byte_quote_body by reflexivity.
  by rewrite Hf.
Qed.

(** A record whose fields hold no line feed is written on one line. *)
Lemma contains_byte_write_fields (record : list string) :
  Forall (fun f => contains_byte LF f = false) record ->
  contains_byte LF (write_fields record) = false.
Proof.
  induction 1 as [|f rest Hf Hrest IH]; [reflexivity |].
  destruct rest as [|g rest].
  - by apply contains_byte_write_field.
  - change (write_fields (f :: g :: rest))
      with (write_field f +:+ String COMMA (write_fields (g :: rest))).
    rewrite contains_byte_app, (contains_byte_write_field f Hf).
    change (contains_byte LF (String COMMA (write_fields (g :: rest))))
      with (contains_byte LF (write_fields (g :: rest))).
    exact IH.
Qed.

Lemma last_byte_snoc (a : string) (c : ascii) :
  last_byte (a +:+ String c "") = Some c.
Proof. by rewrite last_byte_app. Qed.

Lemma last_byte_write_field (f : string) :
  last_byte (write_field f) <> Some CR.
Proof.
  unfold write_field. destruct (fieldNeedsQuotes f) eqn:Hq.
  - rewrite <- append_cons, last_byte_snoc. discriminate.
  - intros H. apply last_byte_contains in H.
    apply fieldNeedsQuotes_false in Hq as [_ Hcr]. congruence.
Qed.

(** The line written for a record never ends with a carriage return. *)
Lemma last_byte_write_fields (record : list string) :
  last_byte (write_fields record) <> Some CR.
Proof.
  induction record as [|f rest IH]; [discriminate |].
  destruct rest as [|g rest].
  - apply last_byte_write_field.
  - change (write_fields (f :: g :: rest))
      with (write_field f +:+ String COMMA (write_fields (g :: rest))).
    rewrite last_byte_app, last_byte_cons.
    destruct (write_fields (g :: rest)); [discriminate | exact IH].
Qed.

Lemma dropCR_id (l : string) : last_byte l <> Some CR -> dropCR l = l.
Proof.
  unfold dropCR. destruct (last_byte l) as [c|]; [| reflexivity].
  destruct (byte_eqb c CR) eqn:Hc; [| reflexivity].
  apply Ascii.eqb_eq in Hc as ->. congruence.
Qed.

(** ** The CSV reader on what the writer wrote *)

Lemma readLine_normalize_no_CR (s : string) :
  contains_byte CR s = false -> readLine_normalize s = s.
Proof.
  induction s as [|a s IH]; [reflexivity |].
  cbn [contains_byte readLine_normalize].
  intros [Ha Hs]%orb_false_iff. rewrite Ha, (IH Hs). reflexivity.
Qed.

Lemma contains_CR_write_field (f : string) :
  contains_byte CR f = false -> contains_byte CR (write_field f) = false.
Proof.
  intros Hf. unfold write_field. destruct (fieldNeedsQuotes f); [| exact Hf].
  cbn [contains_byte].
  rewrite contains_byte_app, contains_byte_quote_body by reflexivity.
  by rewrite Hf.
Qed.

Lemma contains_CR_write_fields (record : list string) :
  Forall (fun f => contains_byte CR f = false) record ->
  contains_byte CR (write_fields record) = false.
Proof.
  induction 1 as [|f rest Hf Hrest IH]; [reflexivity |].
  destruct rest as [|g rest].
  - by apply contains_CR_write_field.
  - change (write_fields (f :: g :: rest))
      with (write_field f +:+ String COMMA (write_fields (g :: rest))).
    rewrite contains_byte_app, (contains_CR_write_field f Hf).
    exact IH.
Qed.

Lemma contains_CR_WriteAll (records : list (list string)) :
  Forall (Forall (fun f => contains_byte CR f = false)) records ->
  contains_byte CR (Writer_WriteAll records) = false.
Proof.
  induction 1 as [|r rest Hr Hrest IH]; [reflexivity |].
  cbn [Writer_WriteAll]. unfold Writer_Write.
  rewrite !contains_byte_app, (contains_CR_write_fields r Hr), IH.
  reflexivity.
Qed.

(** A field written without quotes is empty or holds no line feed, quote
    or comma. *)
Lemma fieldNeedsQuotes_plain (f : string) :
  fieldNeedsQuotes f = false ->
  f = "" \/
  (contains_byte LF f = false /\ contains_byte DQUOTE f = false /\
   contains_byte COMMA f = false).
Proof.
  unfold fieldNeedsQuotes.
  destruct (String.eqb f "") eqn:He.
  - apply String.eqb_eq in He. by left.
  - destruct (String.eqb f "\."); [discriminate |].
    destruct (contains_byte LF f); [discriminate |].
    destruct (contains_byte CR f); [discriminate |].
    destruct (contains_byte DQUOTE f); [discriminate |].
    destruct (contains_byte COMMA f); [discriminate |].
    intros _. right. by repeat split.
Qed.

Section ReadBack.

Variables (fields : list string) (records : list (list string))
          (fpr : option nat).

(** In a non-quoted field the bytes that are no line feed, quote or comma
    are appended to the field. *)
Lemma parse_unquoted (f cur tail : string) :
  contains_byte LF f = false -> contains_byte DQUOTE f = false ->
  contains_byte COMMA f = false ->
  parse_csv (f +:+ tail) Unquoted cur fields records fpr =
  parse_csv tail Unquoted (cur +:+ f) fields records fpr.
Proof.
  revert cur. induction f as [|x f IH]; intros cur.
  - intros _ _ _. by rewrite append_nil_l, append_nil_r.
  - cbn [contains_byte].
    intros [Hx1 H1]%orb_false_iff [Hx2 H2]%orb_false_iff [Hx3 H3]%orb_false_iff.
    rewrite append_cons. cbn [parse_csv]. rewrite Hx1, Hx3, Hx2.
    rewrite (IH (cur +:+ String x "") H1 H2 H3).
    by rewrite append_assoc.
Qed.

(** In a quoted field the body written for [f] is read back as [f], up to
    the closing quote. *)
Lemma parse_quoted (f cur tail : string) :
  parse_csv (quote_body f +:+ String DQUOTE tail) Quoted cur fields records fpr =
  parse_csv tail QuoteSeen (cur +:+ f) fields records fpr.
Proof.
  revert cur. induction f as [|x f IH]; intros cur.
  - rewrite append_nil_r. reflexivity.
  - cbn [quote_body]. destruct (byte_eqb x DQUOTE) eqn:Hx.
    + apply Ascii.eqb_eq in Hx. subst x.
      rewrite !append_cons. cbn [parse_csv].
      change (byte_eqb DQUOTE DQUOTE) with true. cbn [parse_csv].
      rewrite (IH (cur +:+ String DQUOTE "")). by rewrite append_assoc.
    + rewrite append_cons. cbn [parse_csv]. rewrite Hx.
      rewrite (IH (cur +:+ String x "")). by rewrite append_assoc.
Qed.

(** A field as written, followed by a comma, is read back as the field. *)
Lemma parse_field_comma (st : rstate) (f tail : string) :
  st = RecordStart \/ st = FieldStart ->
  parse_csv (write_field f +:+ String COMMA tail) st "" fields records fpr =
  parse_csv tail FieldStart "" (fields ++ [f]) records fpr.
Proof.
  intros Hst. unfold write_field.
  destruct (fieldNeedsQuotes f) eqn:Hq.
  - rewrite append_cons, append_assoc.
    assert (Hopen : forall rest,
      parse_csv (String DQUOTE rest) st "" fields records fpr =
      parse_csv rest Quoted "" fields records fpr).
    { intros rest. by destruct Hst as [-> | ->]. }
    rewrite Hopen, append_cons, append_nil_l, parse_quoted, append_nil_l.
    reflexivity.
  - apply fieldNeedsQuotes_plain in Hq as [-> | (H1 & H2 & H3)].
    + rewrite append_nil_l. by destruct Hst as [-> | ->].
    + destruct f as [|x f].
      * rewrite append_nil_l. by destruct Hst as [-> | ->].
      * cbn [contains_byte] in H1, H2, H3.
        apply orb_false_iff in H1 as [Hx1 H1], H2 as [Hx2 H2], H3 as [Hx3 H3].
        rewrite append_cons.
        assert (Hfirst : forall rest,
          parse_csv (String x rest) st "" fields records fpr =
          parse_csv rest Unquoted (String x "") fields records fpr).
        { intros rest. destruct Hst as [-> | ->]; cbn [parse_csv];
            by rewrite Hx1, Hx2, Hx3. }
        rewrite Hfirst, parse_unquoted by assumption.
        rewrite append_cons, append_nil_l. reflexivity.
Qed.

(** A field as written, followed by a line feed, is read back as the last
    field of its record; a line that holds nothing but an empty field is
    an empty line, which the reader passes over. *)
Lemma parse_field_LF (st : rstate) (f tail : string) :
  st = FieldStart \/ (st = RecordStart /\ f <> "") ->
  parse_csv (write_field f +:+ String LF tail) st "" fields records fpr =
  (r <-? end_record (fields ++ [f]) records fpr;
   parse_csv tail RecordStart "" [] (fst r) (snd r)).
Proof.
  intros Hst. unfold write_field.
  destruct (fieldNeedsQuotes f) eqn:Hq.
  - rewrite append_cons, append_assoc.
    assert (Hopen : forall rest,
      parse_csv (String DQUOTE rest) st "" fields records fpr =
      parse_csv rest Quoted "" fields records fpr).
    { intros rest. by destruct Hst as [-> | [-> _]]. }
    rewrite Hopen, append_cons, append_nil_l, parse_quoted, append_nil_l.
    reflexivity.
  - destruct f as [|x f].
    + rewrite append_nil_l. destruct Hst as [-> | [_ Hne]]; [reflexivity | done].
    + apply fieldNeedsQuotes_plain in Hq as [Hq | (H1 & H2 & H3)];
        [discriminate |].
      cbn [contains_byte] in H1, H2, H3.
      apply orb_false_iff in H1 as [Hx1 H1], H2 as [Hx2 H2], H3 as [Hx3 H3].
      rewrite append_cons.
      assert (Hfirst : forall rest,
        parse_csv (String x rest) st "" fields records fpr =
        parse_csv rest Unquoted (String x "") fields records fpr).
      { intros rest. destruct Hst as [-> | [-> _]]; cbn [parse_csv];
          by rewrite Hx1, Hx2, Hx3. }
      rewrite Hfirst, parse_unquoted by assumption.
      rewrite append_cons, append_nil_l. reflexivity.
Qed.

End ReadBack.

(** The fields of a record as written, followed by a line feed, are read
    back as the record. *)
Lemma parse_fields (fs : list string) :
  forall (f : string) (st : rstate) (fields : list string) (tail : string)
         (records : list (list string)) (fpr : option nat),
  st = FieldStart \/ (st = RecordStart /\ f :: fs <> [""]) ->
  parse_csv (write_fields (f :: fs) +:+ String LF tail) st "" fields records fpr =
  (r <-? end_record (fields ++ f :: fs) records fpr;
   parse_csv tail RecordStart "" [] (fst r) (snd r)).
Proof.
  induction fs as [|g fs IH]; intros f st fields tail records fpr Hst.
  - apply parse_field_LF. destruct Hst as [-> | [-> Hne]]; [by left | right].
    split; [reflexivity | congruence].
  - change (write_fields (f :: g :: fs))
      with (write_field f +:+ String COMMA (write_fields (g :: fs))).
    rewrite append_assoc, append_cons, parse_field_comma
      by (destruct Hst as [-> | [-> _]]; auto).
    rewrite IH by (by left). by rewrite <- app_assoc.
Qed.

Lemma parse_WriteAll (n : nat) (rs : list (list string)) :
  readable_records n rs ->
  forall records fpr,
    fpr = None \/ fpr = Some n ->
    parse_csv (Writer_WriteAll rs) RecordStart "" [] records fpr =
    Ok (records ++ rs).
Proof.
  intros [Hn Hrs]. induction Hrs as [|r rs [Hlen Hne] Hrs IH];
    intros records fpr Hfpr.
  - cbn. by rewrite app_nil_r.
  - cbn [Writer_WriteAll]. unfold Writer_Write.
    rewrite append_assoc, append_cons, append_nil_l.
    destruct r as [|f fs]; [simpl in Hlen; congruence |].
    rewrite parse_fields by (right; by split).
    cbn [app]. unfold end_record.
    assert (Hend : (match fpr with
                    | Some n0 =>
                        if Nat.eqb n0 (length (f :: fs))
                        then Ok (records ++ [f :: fs], fpr)
                        else Err ErrFieldCount
                    | None => Ok (records ++ [f :: fs], Some (length (f :: fs)))
                    end) = Ok (records ++ [f :: fs], Some n)).
    { destruct Hfpr as [-> | ->]; [by rewrite Hlen |].
      by rewrite Hlen, Nat.eqb_refl. }
    rewrite Hend. cbn [bind fst snd].
    rewrite IH by (by right). by rewrite <- app_assoc.
Qed.

(** What [WriteAll] wrote for records of one size whose fields hold no
    carriage return, [ReadAll] reads back. *)
Lemma Reader_ReadAll_Writer_WriteAll (n : nat) (rs : list (list string)) :
  readable_records n rs ->
  Forall (Forall (fun f => contains_byte CR f = false)) rs ->
  Reader_ReadAll (Writer_WriteAll rs) = Ok rs.
Proof.
  intros Hrs Hcr. unfold Reader_ReadAll.
  rewrite readLine_normalize_no_CR by by apply contains_CR_WriteAll.
  rewrite (parse_WriteAll n rs Hrs [] None) by (by left). reflexivity.
Qed.

(** ** The CSV sink: the loop of [GetScrobbles] *)

Section CSVSinkFacts.

Variable ToStringSlice : Scrobble -> list string.
Variable ScrobbleFromCSV : string -> Result Scrobble.

(** The loop only appends to the slice. *)
Lemma collect_extends limit from to lines acc l :
  collect ScrobbleFromCSV limit from to lines acc = Ok l ->
  exists more, l = acc ++ more.
Proof.
  revert acc. induction lines as [|line rest IH]; intros acc; simpl.
  - intros [= <-]. exists []. by rewrite app_nil_r.
  - destruct (ScrobbleFromCSV line) as [sc|e]; [| discriminate].
    destruct (Before (Timestamp sc) from); [apply IH |].
    destruct (After (Timestamp sc) to).
    { intros [= <-]. exists []. by rewrite app_nil_r. }
    destruct ((limit <=? 0) || (Z.of_nat (length acc) <? limit)).
    + intros H. apply IH in H as [more ->]. exists (sc :: more).
      by rewrite <- app_assoc.
    + intros [= <-]. exists []. by rewrite app_nil_r.
Qed.

(** With a positive limit the slice never grows beyond it. *)
Lemma collect_length limit from to lines acc l :
  0 < limit -> Z.of_nat (length acc) <= limit ->
  collect ScrobbleFromCSV limit from to lines acc = Ok l ->
  Z.of_nat (length l) <= limit.
Proof.
  intros Hpos. revert acc.
  induction lines as [|line rest IH]; intros acc Hacc; simpl.
  - by intros [= <-].
  - destruct (ScrobbleFromCSV line) as [sc|e]; [| discriminate].
    destruct (Before (Timestamp sc) from); [by apply IH |].
    destruct (After (Timestamp sc) to); [by intros [= <-] |].
    destruct (limit <=? 0) eqn:Hl; [lia |]. simpl.
    destruct (Z.of_nat (length acc) <? limit) eqn:Hlt.
    + apply IH. rewrite length_app. simpl. lia.
    + by intros [= <-].
Qed.

(** Every record the loop appends lies in the window. *)
Lemma collect_window limit from to lines acc l :
  Forall (fun sc => from <= Timestamp sc <= to) acc ->
  collect ScrobbleFromCSV limit from to lines acc = Ok l ->
  Forall (fun sc => from <= Timestamp sc <= to) l.
Proof.
  revert acc. induction lines as [|line rest IH]; intros acc Hacc; simpl.
  - by intros [= <-].
  - destruct (ScrobbleFromCSV line) as [sc|e]; [| discriminate].
    unfold Before, After.
    destruct (Timestamp sc <? from) eqn:Hb; [by apply IH |].
    destruct (to <? Timestamp sc) eqn:Ha; [by intros [= <-] |].
    destruct ((limit <=? 0) || (Z.of_nat (length acc) <? limit)).
    + apply IH. apply Forall_app. split; [exact Hacc |].
      constructor; [lia | constructor].
    + by intros [= <-].
Qed.

(** Lines that decode to records not after [to] are passed without
    leaving the loop as long as the limit allows: the records not before
    [from] are appended and the loop goes on with the rest. *)
Lemma collect_passes limit from to lines scs rest acc :
  map ScrobbleFromCSV lines = map Ok scs ->
  forallb (fun sc => negb (After (Timestamp sc) to)) scs = true ->
  let kept := filter (fun sc => Before (Timestamp sc) from = false) scs in
  limit <= 0 \/ Z.of_nat (length acc + length kept) <= limit ->
  collect ScrobbleFromCSV limit from to (lines ++ rest) acc =
  collect ScrobbleFromCSV limit from to rest (acc ++ kept).
Proof.
  revert scs acc. induction lines as [|line lines IH]; intros scs acc Hdec.
  - destruct scs; [| discriminate]. intros _ kept _. simpl.
    by rewrite app_nil_r.
  - destruct scs as [|sc scs]; [discriminate |].
    injection Hdec as Hline Hdec. simpl.
    intros Hto%andb_true_iff. destruct Hto as [Hsc Hscs].
    rewrite Hline. rewrite filter_cons.
    destruct (decide (Before (Timestamp sc) from = false)) as [Hb|Hb].
    + rewrite Hb. apply negb_true_iff in Hsc. rewrite Hsc.
      simpl. intros Hcap.
      assert (Hgo : (limit <=? 0) || (Z.of_nat (length acc) <? limit) = true).
      { destruct Hcap as [Hcap|Hcap].
        - apply orb_true_iff. left. lia.
        - apply orb_true_iff. right. lia. }
      rewrite Hgo. rewrite (IH scs (acc ++ [sc]) Hdec Hscs).
      * by rewrite <- app_assoc.
      * rewrite length_app. simpl. destruct Hcap; [by left | right; lia].
    + apply not_false_is_true in Hb. rewrite Hb. intros Hcap.
      by apply IH.
Qed.

(** When no line decodes to a record after [to], the loop returns the
    records not before [from] in the order of the lines, cut at the limit
    when it is positive. *)
Lemma collect_no_later limit from to lines scs acc :
  map ScrobbleFromCSV lines = map Ok scs ->
  forallb (fun sc => negb (After (Timestamp sc) to)) scs = true ->
  limit <= 0 \/ Z.of_nat (length acc) <= limit ->
  collect ScrobbleFromCSV limit from to lines acc =
  Ok (acc ++
      (if limit <=? 0
       then filter (fun sc => Before (Timestamp sc) from = false) scs
       else take (Z.to_nat limit - length acc)
                 (filter (fun sc => Before (Timestamp sc) from = false) scs))).
Proof.
  revert scs acc. induction lines as [|line lines IH]; intros scs acc Hdec.
  - destruct scs; [| discriminate]. intros _ _. simpl.
    rewrite filter_nil, take_nil. destruct (limit <=? 0); by rewrite app_nil_r.
  - destruct scs as [|sc scs]; [discriminate |].
    injection Hdec as Hline Hdec. cbn [forallb collect].
    intros [Hsc Hscs]%andb_true_iff Hcap. rewrite Hline.
    apply negb_true_iff in Hsc. rewrite filter_cons.
    destruct (decide (Before (Timestamp sc) from = false)) as [Hb|Hb].
    + rewrite Hb, Hsc.
      destruct (Z.leb_spec limit 0) as [Hno|Hpos]; cbn [orb].
      * rewrite (IH scs (acc ++ [sc]) Hdec Hscs) by (by left).
        destruct (Z.leb_spec limit 0); [| lia]. by rewrite <- app_assoc.
      * destruct Hcap as [Hcap|Hcap]; [lia |].
        destruct (Z.ltb_spec (Z.of_nat (length acc)) limit) as [Hlt|Hge].
        -- rewrite (IH scs (acc ++ [sc]) Hdec Hscs)
             by (right; rewrite length_app; simpl; lia).
           destruct (Z.leb_spec limit 0); [lia |].
           rewrite <- app_assoc, length_app. simpl.
           replace (Z.to_nat limit - length acc)%nat
             with (S (Z.to_nat limit - (length acc + 1)))%nat by lia.
           reflexivity.
        -- replace (Z.to_nat limit - length acc)%nat with 0%nat by lia.
           by rewrite take_0, app_nil_r.
    + apply not_false_is_true in Hb. rewrite Hb. by apply IH.
Qed.

End CSVSinkFacts.

Lemma reverse_map {A B} (f : A -> B) (l : list A) :
  map f (reverse l) = reverse (map f l).
Proof. exact (fmap_reverse f l). Qed.

Lemma forallb_reverse {A} (f : A -> bool) (l : list A) :
  forallb f (reverse l) = forallb f l.
Proof.
  induction l as [|x l IH]; [reflexivity |].
  rewrite reverse_cons, forallb_app, IH. simpl.
  rewrite andb_true_r. apply andb_comm.
Qed.

(** ** The file system *)

Lemma os_Create_files fs name fs' :
  os_Create fs name = Ok fs' ->
  exists w, files fs' = <[name := mkFile "" true w]> (files fs) /\
            dir_writable fs' = dir_writable fs /\ quota fs' = quota fs.
Proof.
  unfold os_Create. destruct (files fs !! name) as [f|].
  - destruct (readable f) eqn:Hr; [| discriminate]. simpl.
    destruct (writable f) eqn:Hw; [| discriminate].
    intros [= <-]. simpl. eauto.
  - destruct (dir_writable fs); [| discriminate].
    intros [= <-]. simpl. eauto.
Qed.

(** When the bytes fit, the write succeeds, the file created and written
    holds the bytes written, and no other file has changed. *)
Lemma os_Create_write fs name fs' bytes :
  os_Create fs name = Ok fs' ->
  fits fs bytes = true ->
  write_error fs' bytes = None /\
  os_Open (file_write fs' name bytes) name = Ok bytes /\
  forall other, other <> name ->
    files (file_write fs' name bytes) !! other = files fs !! other.
Proof.
  intros (w & Hfiles & _ & Hquota)%os_Create_files Hfits.
  assert (Hstored : stored fs' bytes = bytes).
  { unfold stored, fits in *. rewrite Hquota.
    destruct (quota fs); [by rewrite Hfits | reflexivity]. }
  unfold write_error, fits. rewrite Hquota. fold (fits fs bytes).
  rewrite Hfits. split; [reflexivity |].
  unfold os_Open, file_write. simpl. rewrite Hstored, Hfiles. split.
  - rewrite lookup_alter_eq, lookup_insert_eq. reflexivity.
  - intros other Hne. rewrite lookup_alter_ne, lookup_insert_ne by done.
    reflexivity.
Qed.

(** ** The CSV sink: writing and reading the history *)

Section CSVSinkProperties.

Variable ToStringSlice : Scrobble -> list string.
Variable ScrobbleFromCSV : string -> Result Scrobble.

(** C3, amended: [CSVSink.Scrobble] reads and parses all the records of
    the history file, a missing file counting as none, appends the new
    record and rewrites the file as a whole: when the file can be created
    and the bytes written fit, the call succeeds and the file then holds
    what [WriteAll] writes for the prior records in their order followed
    by the new record, which is what it writes for the prior records
    followed by the line of the new record; no other file changes. *)
Theorem csv_scrobble_rewrites_whole_file s scrobble fs prior fs_created :
  (files fs !! Filename s = None /\ prior = [] \/
   exists file, os_Open fs (Filename s) = Ok file /\
                Reader_ReadAll file = Ok prior) ->
  os_Create fs (Filename s) = Ok fs_created ->
  fits fs (Writer_WriteAll (prior ++ [ToStringSlice scrobble])) = true ->
  exists fs',
    CSVSink_Scrobble ToStringSlice s scrobble fs = (fs', None) /\
    os_Open fs' (Filename s) =
      Ok (Writer_WriteAll (prior ++ [ToStringSlice scrobble])) /\
    Writer_WriteAll (prior ++ [ToStringSlice scrobble]) =
      Writer_WriteAll prior +:+ Writer_Write (ToStringSlice scrobble) /\
    forall other, other <> Filename s ->
      files fs' !! other = files fs !! other.
Proof.
  intros Hprior Hcreate Hfits.
  assert (Hex : existing_records s fs = Ok prior).
  { unfold existing_records.
    destruct Hprior as [[Hnone ->] | (file & Hopen & Hread)].
    - unfold os_Open. by rewrite Hnone.
    - by rewrite Hopen. }
  destruct (os_Create_write fs (Filename s) fs_created
              (Writer_WriteAll (prior ++ [ToStringSlice scrobble]))
              Hcreate Hfits) as (Herr & Hopen & Hother).
  exists (file_write fs_created (Filename s)
            (Writer_WriteAll (prior ++ [ToStringSlice scrobble]))).
  unfold CSVSink_Scrobble. rewrite Hex, Hcreate, Herr.
  split; [reflexivity |].
  split; [exact Hopen |]. split; [| exact Hother].
  rewrite Writer_WriteAll_app. simpl. by rewrite append_nil_r.
Qed.

(** C10: when the history file exists and does not parse as CSV, or
    cannot be opened for a reason other than its absence,
    [CSVSink.Scrobble] returns that error and the file system is
    unchanged: nothing was created or truncated. *)
Theorem csv_scrobble_error_leaves_file s scrobble fs err :
  (exists file, os_Open fs (Filename s) = Ok file /\
                Reader_ReadAll file = Err err) \/
  (os_Open fs (Filename s) = Err err /\ os_IsNotExist err = false) ->
  CSVSink_Scrobble ToStringSlice s scrobble fs = (fs, Some err).
Proof.
  intros H. unfold CSVSink_Scrobble, existing_records.
  destruct H as [(file & Hopen & Hread) | [Hopen Hne]].
  - by rewrite Hopen, Hread.
  - by rewrite Hopen, Hne.
Qed.

(** C9: [CSVSink.NowPlaying] succeeds and leaves the file system as it
    was, so the history read afterwards is the history read before. *)
Theorem csv_now_playing_not_persisted s scrobble fs :
  CSVSink_NowPlaying s scrobble fs = (fs, None) /\
  forall limit from to,
    CSVSink_GetScrobbles ScrobbleFromCSV s limit from to
      (fst (CSVSink_NowPlaying s scrobble fs)) =
    CSVSink_GetScrobbles ScrobbleFromCSV s limit from to fs.
Proof. split; [reflexivity | intros; reflexivity]. Qed.

(** C4, amended: [CSVSink.GetScrobbles] returns the decoding error, and
    no records, when the scan reaches a malformed line: that is, when
    every line after it in the file decodes to a record that is not
    after [to], and the limit is not positive or is at least the number
    of those records that are not before [from]. *)
Theorem csv_get_scrobbles_malformed_line_reached
    s limit from to fs file older line newer scs err :
  os_Open fs (Filename s) = Ok file ->
  Scanner_lines file = Ok (older ++ line :: newer) ->
  ScrobbleFromCSV line = Err err ->
  map ScrobbleFromCSV newer = map Ok scs ->
  forallb (fun sc => negb (After (Timestamp sc) to)) scs = true ->
  (limit <= 0 \/
   Z.of_nat (length (filter (fun sc => Before (Timestamp sc) from = false) scs))
     <= limit) ->
  CSVSink_GetScrobbles ScrobbleFromCSV s limit from to fs = Err err.
Proof.
  intros Hopen Hscan Hline Hdec Hto Hcap.
  unfold CSVSink_GetScrobbles. rewrite Hopen. simpl.
  rewrite Hscan. simpl. rewrite reverse_app, reverse_cons, <- app_assoc.
  rewrite (collect_passes ScrobbleFromCSV limit from to
             (reverse newer) (reverse scs)).
  - simpl. by rewrite Hline.
  - by rewrite !reverse_map, Hdec.
  - by rewrite forallb_reverse.
  - rewrite filter_reverse, length_reverse. simpl.
    destruct Hcap; [by left | by right].
Qed.

(** After [CSVSink.Scrobble] the records read from the file are the prior
    ones followed by the new one, when the bytes written fit, all the
    records have one size, none is a single empty field and no field holds
    a carriage return. *)
Lemma csv_scrobble_then_existing_records s scrobble fs prior fs_created n :
  existing_records s fs = Ok prior ->
  os_Create fs (Filename s) = Ok fs_created ->
  fits fs (Writer_WriteAll (prior ++ [ToStringSlice scrobble])) = true ->
  readable_records n (prior ++ [ToStringSlice scrobble]) ->
  Forall (Forall (fun f => contains_byte CR f = false))
         (prior ++ [ToStringSlice scrobble]) ->
  existing_records s (fst (CSVSink_Scrobble ToStringSlice s scrobble fs)) =
  Ok (prior ++ [ToStringSlice scrobble]).
Proof.
  intros Hex Hcreate Hfits Hrs Hcr.
  unfold CSVSink_Scrobble. rewrite Hex, Hcreate. cbn [fst].
  destruct (os_Create_write fs (Filename s) fs_created
              (Writer_WriteAll (prior ++ [ToStringSlice scrobble]))
              Hcreate Hfits) as (_ & Hopen & _).
  unfold existing_records. rewrite Hopen.
  by apply (Reader_ReadAll_Writer_WriteAll n).
Qed.

End CSVSinkProperties.

Section CSVRoundTrip.

Variable ToStringSlice : Scrobble -> list string.
Variable ScrobbleFromCSV : string -> Result Scrobble.

(** The lines of the rewritten file: those of the prior records, then the
    line of the new record. *)
Lemma scan_tokens_rewritten prior record :
  contains_byte LF (write_fields record) = false ->
  scan_tokens (split_lines (Writer_WriteAll (prior ++ [record]))) =
  scan_tokens (split_lines (Writer_WriteAll prior)) ++ [write_fields record].
Proof.
  intros Hline. rewrite Writer_WriteAll_app, Writer_WriteAll_one.
  apply scan_tokens_append_line; [apply Writer_WriteAll_terminated | exact Hline].
Qed.

(** The lines read from the rewritten file: those of the prior records,
    then the line of the new record. *)
Lemma Scanner_lines_rewritten prior record lines :
  Scanner_lines (Writer_WriteAll prior) = Ok lines ->
  contains_byte LF (write_fields record) = false ->
  len (write_fields record) < MaxScanTokenSize ->
  Scanner_lines (Writer_WriteAll (prior ++ [record])) =
  Ok (lines ++ [write_fields record]).
Proof.
  unfold Scanner_lines. intros Hprior Hlf Hlen.
  rewrite (scan_tokens_rewritten prior record Hlf).
  rewrite forallb_app, map_app. cbn [forallb map].
  destruct (forallb _ (scan_tokens (split_lines (Writer_WriteAll prior))));
    [| discriminate].
  injection Hprior as <-.
  rewrite (dropCR_id (write_fields record)) by apply last_byte_write_fields.
  apply Z.ltb_lt in Hlen. by rewrite Hlen.
Qed.

(** The first turn of the loop on the line of a scrobble that lies in the
    window, asked without limit: the scrobble is appended. *)
Lemma collect_first line scrobble from to rest :
  ScrobbleFromCSV line = Ok scrobble ->
  from <= Timestamp scrobble <= to ->
  collect ScrobbleFromCSV 0 from to (line :: rest) [] =
  collect ScrobbleFromCSV 0 from to rest [scrobble].
Proof.
  intros Hdec Hwin. cbn [collect]. rewrite Hdec. unfold Before, After.
  destruct (Z.ltb_spec (Timestamp scrobble) from); [lia |].
  destruct (Z.ltb_spec to (Timestamp scrobble)); [lia |]. reflexivity.
Qed.

(** C2, amended: for a scrobble whose timestamp lies within [from, to],
    whose fields as written hold no line feed, whose line is shorter than
    the token limit of the scanner and is decoded by [ScrobbleFromCSV] to
    the scrobble itself: when the history file can be read, created and
    written, and each of its prior records, as rewritten, decodes to a
    record that is not after [to], writing the scrobble with
    [CSVSink.Scrobble] succeeds
    and [GetScrobbles(0, from, to)] then returns the scrobble first, equal
    field for field, followed by the prior records that are not before
    [from], the latest line first; without prior records it returns
    exactly the scrobble. *)
Theorem csv_scrobble_then_get_scrobbles
    s scrobble from to fs prior fs_created lines scs :
  existing_records s fs = Ok prior ->
  os_Create fs (Filename s) = Ok fs_created ->
  fits fs (Writer_WriteAll (prior ++ [ToStringSlice scrobble])) = true ->
  forallb (fun f => negb (contains_byte LF f)) (ToStringSlice scrobble) = true ->
  len (write_fields (ToStringSlice scrobble)) < MaxScanTokenSize ->
  ScrobbleFromCSV (write_fields (ToStringSlice scrobble)) = Ok scrobble ->
  from <= Timestamp scrobble <= to ->
  Scanner_lines (Writer_WriteAll prior) = Ok lines ->
  map ScrobbleFromCSV lines = map Ok scs ->
  forallb (fun sc => negb (After (Timestamp sc) to)) scs = true ->
  exists fs',
    CSVSink_Scrobble ToStringSlice s scrobble fs = (fs', None) /\
    CSVSink_GetScrobbles ScrobbleFromCSV s 0 from to fs' =
      Ok (scrobble ::
          filter (fun sc => Before (Timestamp sc) from = false) (reverse scs)) /\
    (prior = [] ->
     CSVSink_GetScrobbles ScrobbleFromCSV s 0 from to fs' = Ok [scrobble]).
Proof.
  intros Hex Hcreate Hfits Hlf Hlen Hdec Hwin Hlines Hscs Hto.
  set (record := ToStringSlice scrobble) in *.
  destruct (os_Create_write fs (Filename s) fs_created
              (Writer_WriteAll (prior ++ [record])) Hcreate Hfits)
    as (Herr & Hopen & _).
  exists (file_write fs_created (Filename s)
            (Writer_WriteAll (prior ++ [record]))).
  split.
  { unfold CSVSink_Scrobble. fold record. by rewrite Hex, Hcreate, Herr. }
  assert (Hline : contains_byte LF (write_fields record) = false).
  { apply contains_byte_write_fields. apply Forall_forall.
    intros f Hf. rewrite forallb_forall in Hlf.
    apply negb_true_iff, Hlf. by apply list_elem_of_In. }
  assert (Hget :
    CSVSink_GetScrobbles ScrobbleFromCSV s 0 from to
      (file_write fs_created (Filename s) (Writer_WriteAll (prior ++ [record])))
    = Ok (scrobble ::
          filter (fun sc => Before (Timestamp sc) from = false) (reverse scs))).
  { unfold CSVSink_GetScrobbles. rewrite Hopen. cbn [bind].
    rewrite (Scanner_lines_rewritten prior record lines Hlines Hline Hlen).
    cbn [bind]. rewrite reverse_snoc.
    rewrite (collect_first _ scrobble from to _ Hdec Hwin).
    rewrite (collect_no_later ScrobbleFromCSV 0 from to
               (reverse lines) (reverse scs) [scrobble]).
    - reflexivity.
    - by rewrite !reverse_map, Hscs.
    - by rewrite forallb_reverse.
    - by left. }
  split; [exact Hget |].
  intros ->. rewrite Hget. injection Hlines as <-.
  destruct scs; [reflexivity | discriminate].
Qed.

(** Whatever the prior lines hold: a list returned after the scrobble was
    written begins with the scrobble. *)
Lemma csv_get_scrobbles_begins_with_scrobble
    s scrobble from to fs prior fs_created l :
  existing_records s fs = Ok prior ->
  os_Create fs (Filename s) = Ok fs_created ->
  fits fs (Writer_WriteAll (prior ++ [ToStringSlice scrobble])) = true ->
  forallb (fun f => negb (contains_byte LF f)) (ToStringSlice scrobble) = true ->
  ScrobbleFromCSV (write_fields (ToStringSlice scrobble)) = Ok scrobble ->
  from <= Timestamp scrobble <= to ->
  CSVSink_GetScrobbles ScrobbleFromCSV s 0 from to
    (fst (CSVSink_Scrobble ToStringSlice s scrobble fs)) = Ok l ->
  exists older, l = scrobble :: older.
Proof.
  intros Hex Hcreate Hfits Hlf Hdec Hwin.
  unfold CSVSink_Scrobble. rewrite Hex, Hcreate. cbn [fst].
  set (record := ToStringSlice scrobble) in *.
  destruct (os_Create_write fs (Filename s) fs_created
              (Writer_WriteAll (prior ++ [record])) Hcreate Hfits)
    as (_ & Hopen & _).
  assert (Hline : contains_byte LF (write_fields record) = false).
  { apply contains_byte_write_fields. apply Forall_forall.
    intros f Hf. rewrite forallb_forall in Hlf.
    apply negb_true_iff, Hlf. by apply list_elem_of_In. }
  unfold CSVSink_GetScrobbles. rewrite Hopen. cbn [bind].
  unfold Scanner_lines. rewrite (scan_tokens_rewritten prior record Hline).
  destruct (forallb (fun l0 => len l0 <? MaxScanTokenSize) _);
    [| discriminate]. cbn [bind].
  rewrite map_app. cbn [map].
  rewrite (dropCR_id (write_fields record)) by apply last_byte_write_fields.
  rewrite reverse_snoc, (collect_first _ scrobble from to _ Hdec Hwin).
  intros H. apply collect_extends in H as [more ->]. by exists more.
Qed.

End CSVRoundTrip.

(** Whatever [GetScrobbles] returns lies in the window and, under a
    positive limit, holds at most [limit] records. *)
Lemma csv_get_scrobbles_bounds
    (ScrobbleFromCSV : string -> Result Scrobble) s limit from to fs l :
  CSVSink_GetScrobbles ScrobbleFromCSV s limit from to fs = Ok l ->
  Forall (fun sc => from <= Timestamp sc <= to) l /\
  (0 < limit -> Z.of_nat (length l) <= limit).
Proof.
  unfold CSVSink_GetScrobbles.
  destruct (os_Open fs (Filename s)) as [file|]; [| discriminate]. simpl.
  destruct (Scanner_lines file) as [lines|]; [| discriminate]. simpl.
  intros H. split.
  - by apply (collect_window ScrobbleFromCSV limit from to (reverse lines) []).
  - intros Hpos.
    apply (collect_length ScrobbleFromCSV limit from to (reverse lines) []);
      [exact Hpos | simpl; lia | exact H].
Qed.

(** When every line decodes and no record is after [to], [GetScrobbles]
    returns the records that are not before [from], the last line of the
    file first, cut at the limit when it is positive. *)
Lemma csv_get_scrobbles_no_later_record
    (ScrobbleFromCSV : string -> Result Scrobble)
    s limit from to fs file lines scs :
  os_Open fs (Filename s) = Ok file ->
  Scanner_lines file = Ok lines ->
  map ScrobbleFromCSV lines = map Ok scs ->
  forallb (fun sc => negb (After (Timestamp sc) to)) scs = true ->
  CSVSink_GetScrobbles ScrobbleFromCSV s limit from to fs =
  Ok (if limit <=? 0
      then filter (fun sc => Before (Timestamp sc) from = false) (reverse scs)
      else take (Z.to_nat limit)
             (filter (fun sc => Before (Timestamp sc) from = false)
                     (reverse scs))).
Proof.
  intros Hopen Hscan Hdec Hto.
  unfold CSVSink_GetScrobbles. rewrite Hopen. cbn [bind].
  rewrite Hscan. cbn [bind].
  rewrite (collect_no_later ScrobbleFromCSV limit from to
             (reverse lines) (reverse scs) []).
  - simpl. by rewrite Nat.sub_0_r.
  - by rewrite !reverse_map, Hdec.
  - by rewrite forallb_reverse.
  - destruct (Z.leb_spec limit 0); [by left | right; simpl; lia].
Qed.

(** When the last line of the file decodes to a record after [to], the
    scan ends at once: no record is returned, whatever the lines before it
    hold. *)
Lemma csv_get_scrobbles_latest_after_to
    (ScrobbleFromCSV : string -> Result Scrobble)
    s limit from to fs file older line sc :
  os_Open fs (Filename s) = Ok file ->
  Scanner_lines file = Ok (older ++ [line]) ->
  ScrobbleFromCSV line = Ok sc ->
  Before (Timestamp sc) from = false ->
  After (Timestamp sc) to = true ->
  CSVSink_GetScrobbles ScrobbleFromCSV s limit from to fs = Ok [].
Proof.
  intros Hopen Hscan Hline Hfrom Hto.
  unfold CSVSink_GetScrobbles. rewrite Hopen. cbn [bind].
  rewrite Hscan. cbn [bind]. rewrite reverse_snoc.
  cbn [collect]. by rewrite Hline, Hfrom, Hto.
Qed.

(** ** The CSV sink on concrete histories *)

(** C1: the history holds a play of timestamp 100 s and a later play of
    timestamp 200 s; both lines decode. Asked for the window from 0 s to
    150 s without limit, [GetScrobbles] returns no record, although the
    older play lies in the window: the scan leaves the loop at the newer
    play, which is after [to]. *)
Theorem csv_get_scrobbles_stops_at_later_play :
  ref_ScrobbleFromCSV line_older = Ok play_older /\
  ref_ScrobbleFromCSV line_newer = Ok play_newer /\
  time_Unix 0 <= Timestamp play_older <= time_Unix 150 /\
  CSVSink_GetScrobbles ref_ScrobbleFromCSV history_sink 0
    (time_Unix 0) (time_Unix 150) (fs_of_lines [line_older; line_newer]) = Ok [].
Proof.
  split; [vm_compute; reflexivity |].
  split; [vm_compute; reflexivity |].
  split; [vm_compute; split; discriminate |].
  vm_compute; reflexivity.
Qed.

(** C2 as stated does not hold: a play that began before the epoch is
    written, its line decodes to the play itself, and the history fetched
    from the epoch to the far future with limit 0 is empty. *)
Lemma csv_round_trip_before_epoch :
  exists fs',
    CSVSink_Scrobble ref_ToStringSlice history_sink play_before_epoch fs_fresh
      = (fs', None) /\
    ref_ScrobbleFromCSV (write_fields (ref_ToStringSlice play_before_epoch))
      = Ok play_before_epoch /\
    CSVSink_GetScrobbles ref_ScrobbleFromCSV history_sink 0
      (time_Unix 0) far_future fs' = Ok [].
Proof.
  eexists. split; [reflexivity |].
  split; vm_compute; reflexivity.
Qed.

(** C3 as stated does not hold: the rewrite is not atomic. The history
    holds one record in 49 bytes and no file may grow beyond 60 bytes;
    [CSVSink.Scrobble] truncates the file, writes the 60 bytes that fit
    of the two records and returns the error of the write: the file then
    holds the prior record and a fragment of the new one. *)
Lemma csv_scrobble_write_fails :
  exists fs',
    CSVSink_Scrobble ref_ToStringSlice history_sink play_newer
      (fs_of_lines_quota [line_older] 60) = (fs', Some ErrNoSpace) /\
    os_Open (fs_of_lines_quota [line_older] 60) (Filename history_sink)
      = Ok (text_of_lines [line_older]) /\
    len (text_of_lines [line_older]) = 49 /\
    os_Open fs' (Filename history_sink)
      = Ok (text_of_lines [line_older] +:+
            String DQUOTE "Sigur Rós").
Proof.
  eexists. split; [reflexivity |].
  repeat split; vm_compute; reflexivity.
Qed.

(** C4 as stated does not hold: the first line of the history is
    malformed, the two lines after it decode, and with limit 1
    [GetScrobbles] returns the latest play and no error. *)
Lemma csv_get_scrobbles_malformed_line_not_reached :
  ref_ScrobbleFromCSV line_malformed = Err (ErrDecode "fields") /\
  CSVSink_GetScrobbles ref_ScrobbleFromCSV history_sink 1
    (time_Unix 0) far_future
    (fs_of_lines [line_malformed; line_older; line_newer]) = Ok [play_newer].
Proof. split; vm_compute; reflexivity. Qed.

(** A history of one record, to which a second play is written. *)
Lemma csv_scrobble_rewrites_whole_file_witness :
  exists fs',
    CSVSink_Scrobble ref_ToStringSlice history_sink play_newer
      (fs_of_lines [line_older]) = (fs', None) /\
    os_Open fs' (Filename history_sink)
      = Ok (text_of_lines [line_older; line_newer]).
Proof.
  edestruct (csv_scrobble_rewrites_whole_file ref_ToStringSlice history_sink
               play_newer (fs_of_lines [line_older])
               [ref_ToStringSlice play_older]) as (fs' & Hs & Ho & _).
  - right. eexists. split; [reflexivity | vm_compute; reflexivity].
  - reflexivity.
  - reflexivity.
  - exists fs'. split; [exact Hs |]. rewrite Ho. vm_compute. reflexivity.
Defined.

(** A history whose second line is not CSV: the error of the reader is
    returned and the file system is unchanged. *)
Lemma csv_scrobble_error_leaves_file_witness :
  CSVSink_Scrobble ref_ToStringSlice history_sink play_newer
    (fs_of_lines [line_older; line_bare_quote])
  = (fs_of_lines [line_older; line_bare_quote], Some ErrBareQuote).
Proof.
  apply csv_scrobble_error_leaves_file. left. eexists.
  split; [reflexivity | vm_compute; reflexivity].
Defined.

(** Without a history file the scrobble is the only line of the file
    created. *)
Example csv_scrobble_creates_file :
  os_Open (fst (CSVSink_Scrobble ref_ToStringSlice history_sink play_older
                  fs_fresh)) (Filename history_sink)
  = Ok (text_of_lines [line_older]).
Proof. vm_compute. reflexivity. Qed.

(** A history file that may not be read: the error of [os.Open] is
    returned and the file system is unchanged. *)
Example csv_scrobble_unreadable_file :
  CSVSink_Scrobble ref_ToStringSlice history_sink play_newer fs_unreadable
  = (fs_unreadable, Some ErrPermission).
Proof. vm_compute. reflexivity. Qed.

(** A malformed line between two plays, asked with limit 1: the latest
    play fits the limit and the scan reaches the malformed line. *)
Lemma csv_get_scrobbles_malformed_line_reached_witness :
  CSVSink_GetScrobbles ref_ScrobbleFromCSV history_sink 1
    (time_Unix 0) far_future
    (fs_of_lines [line_older; line_malformed; line_newer])
  = Err (ErrDecode "fields").
Proof.
  eapply (csv_get_scrobbles_malformed_line_reached ref_ScrobbleFromCSV
            history_sink 1 (time_Unix 0) far_future _ _
            [line_older] line_malformed [line_newer] [play_newer]).
  - reflexivity.
  - vm_compute. reflexivity.
  - vm_compute. reflexivity.
  - vm_compute. reflexivity.
  - vm_compute. reflexivity.
  - right. vm_compute. discriminate.
Defined.

(** A play with two artists of non-ASCII names, written to a history of
    one record and fetched from the epoch to the far future: it comes
    first, the prior play after it. *)
Lemma csv_scrobble_then_get_scrobbles_witness :
  exists fs',
    CSVSink_Scrobble ref_ToStringSlice history_sink play_newer
      (fs_of_lines [line_older]) = (fs', None) /\
    CSVSink_GetScrobbles ref_ScrobbleFromCSV history_sink 0
      (time_Unix 0) far_future fs' = Ok [play_newer; play_older].
Proof.
  edestruct (csv_scrobble_then_get_scrobbles ref_ToStringSlice
               ref_ScrobbleFromCSV history_sink play_newer
               (time_Unix 0) far_future (fs_of_lines [line_older])
               [ref_ToStringSlice play_older] (fs_of_lines [])
               [line_older] [play_older])
    as (fs' & Hs & Hg & _).
  - vm_compute. reflexivity.
  - vm_compute. reflexivity.
  - reflexivity.
  - vm_compute. reflexivity.
  - vm_compute. reflexivity.
  - vm_compute. reflexivity.
  - vm_compute. split; discriminate.
  - vm_compute. reflexivity.
  - vm_compute. reflexivity.
  - vm_compute. reflexivity.
  - exists fs'. split; [exact Hs |]. rewrite Hg. vm_compute. reflexivity.
Defined.

(** The same on a file system without a history file. *)
Example csv_scrobble_then_get_scrobbles_fresh :
  CSVSink_GetScrobbles ref_ScrobbleFromCSV history_sink 0
    (time_Unix 0) far_future
    (fst (CSVSink_Scrobble ref_ToStringSlice history_sink play_newer fs_fresh))
  = Ok [play_newer].
Proof. vm_compute. reflexivity. Qed.

(** Two scrobbles written one after the other are the two records of the
    file. *)
Example csv_scrobble_twice :
  existing_records history_sink
    (fst (CSVSink_Scrobble ref_ToStringSlice history_sink play_newer
       (fst (CSVSink_Scrobble ref_ToStringSlice history_sink play_older
               fs_fresh))))
  = Ok [ref_ToStringSlice play_older; ref_ToStringSlice play_newer].
Proof. vm_compute. reflexivity. Qed.

(** A track title that holds a line feed is written as a quoted field over
    two lines of the file; [GetScrobbles] reads the file line by line and
    fails on the line it decodes first, the second half of the record. *)
Example csv_scrobble_line_feed_in_title :
  let play := mkScrobble ["Nico"] ("Chelsea" +:+ String LF "Girls")
                         "Chelsea Girl" (442 * Second) (time_Unix 300) in
  ref_ScrobbleFromCSV (write_fields (ref_ToStringSlice play)) = Ok play /\
  CSVSink_GetScrobbles ref_ScrobbleFromCSV history_sink 0
    (time_Unix 0) far_future
    (fst (CSVSink_Scrobble ref_ToStringSlice history_sink play fs_fresh))
  = Err ErrBareQuote.
Proof. split; vm_compute; reflexivity. Qed.

(** ** The last.fm sink *)

Section LastFmSinkProperties.

Variable JoinArtists : Scrobble -> string.


End LastFmSinkProperties.

(** The whole seconds of some durations, as the requests carry them. *)
Example lastfm_duration_examples :
  map (fun d => Z.max (Seconds_int d) 30)
      [ 215 * Second + 500000000; 30 * Second + 999999999; 31 * Second;
        12 * Second; 0; 3600 * Second - 1 ]
  = [215; 30; 31; 30; 30; 3599].
Proof. vm_compute. reflexivity. Qed.


(** Just below 2^24 s the same fraction is still cut off. *)
Example lastfm_duration_below_rounding :
  Seconds_int ((2 ^ 24 - 1) * Second + 999999999) = 2 ^ 24 - 1.
Proof. vm_compute. reflexivity. Qed.

Lemma wrap64_small (z : Z) : - 2 ^ 63 <= z <= max_int64 -> wrap64 z = z.
Proof.
  unfold wrap64, max_int64. intros H.
  rewrite Z.mod_small; lia.
Qed.

(** A page whose tracks all fit the limit is appended whole, and the loop
    over its tracks ends without [break]. *)
Lemma add_tracks_all limit tracks acc :
  limit <= 0 \/ Z.of_nat (length acc + length tracks) <= limit ->
  add_tracks limit tracks acc = (acc ++ map scrobble_of_track tracks, false).
Proof.
  revert acc. induction tracks as [|track rest IH]; intros acc Hcap; simpl.
  - by rewrite app_nil_r.
  - assert (Hgo : (limit <=? 0) || (Z.of_nat (length acc) <? limit) = true).
    { apply orb_true_iff. simpl in Hcap. destruct Hcap; [left | right]; lia. }
    rewrite Hgo, IH.
    + by rewrite <- app_assoc.
    + rewrite length_app. simpl in *. destruct Hcap; [by left | right; lia].
Qed.

(** A page with more tracks than the limit leaves room for: the tracks
    that fit are appended and the loop is left by [break outer]. *)
Lemma add_tracks_cut limit tracks acc :
  0 < limit ->
  Z.of_nat (length acc) <= limit < Z.of_nat (length acc + length tracks) ->
  add_tracks limit tracks acc =
  (take (Z.to_nat limit) (acc ++ map scrobble_of_track tracks), true).
Proof.
  intros Hpos. revert acc.
  induction tracks as [|track rest IH]; intros acc Hcap; simpl in *; [lia |].
  destruct (Z.leb_spec limit 0) as [|_]; [lia |]. cbn [orb].
  destruct (Z.ltb_spec (Z.of_nat (length acc)) limit) as [Hlt|Hge].
  - rewrite IH by (rewrite length_app; simpl; lia).
    by rewrite <- app_assoc.
  - by rewrite take_app_length' by lia.
Qed.

Lemma up_to_fits {A} limit (l : list A) :
  limit <= 0 \/ Z.of_nat (length l) <= limit -> up_to limit l = l.
Proof.
  unfold up_to. intros H. destruct (Z.leb_spec limit 0); [done |].
  apply take_ge. lia.
Qed.

Lemma up_to_length {A} limit (l : list A) :
  0 < limit -> Z.of_nat (length (up_to limit l)) <= limit.
Proof.
  unfold up_to. intros H. destruct (Z.leb_spec limit 0); [lia |].
  rewrite length_take. lia.
Qed.

(** The run of the loop from the page [k] on, with the scrobbles [acc]
    collected so far: the pages [passed] are fetched and appended whole,
    each leaving the limit unmet and reporting more pages than were
    fetched; the request after them ends the run. *)
Lemma pages_loop_run s limit from to bound :
  (forall p page, UserGetRecentTracks (LastFmClient s) p = Ok page ->
                  TotalPages page <= bound) ->
  bound <= max_int64 ->
  forall fuel k tp acc,
    1 <= k <= Z.max bound 1 ->
    Z.max bound 1 - k + 1 <= Z.of_nat fuel ->
    limit <= 0 \/ Z.of_nat (length acc) <= limit ->
    exists (passed : list RecentTracks) (r : Result (list Scrobble)),
      pages_loop fuel s limit from to k tp acc = Some r /\
      k + Z.of_nat (length passed) <= Z.max bound 1 /\
      (forall i page, passed !! i = Some page ->
         UserGetRecentTracks (LastFmClient s)
           (RecentTracks_params s limit from to (k + Z.of_nat i)) = Ok page /\
         k + Z.of_nat i < TotalPages page /\
         (limit <= 0 \/
          Z.of_nat (length acc +
                    length (concat (map Tracks (take (S i) passed))))
          <= limit)) /\
      ((exists err,
          UserGetRecentTracks (LastFmClient s)
            (RecentTracks_params s limit from to
               (k + Z.of_nat (length passed))) = Err err /\
          r = Err err) \/
       (exists last,
          UserGetRecentTracks (LastFmClient s)
            (RecentTracks_params s limit from to
               (k + Z.of_nat (length passed))) = Ok last /\
          r = Ok (up_to limit
                    (acc ++ map scrobble_of_track
                              (concat (map Tracks (passed ++ [last]))))) /\
          (0 < limit <
             Z.of_nat (length acc +
                       length (concat (map Tracks (passed ++ [last])))) \/
           (limit <= 0 \/
            Z.of_nat (length acc +
                      length (concat (map Tracks (passed ++ [last]))))
            <= limit) /\
           TotalPages last <= k + Z.of_nat (length passed)))).
Proof.
  intros Hbound Hmax.
  induction fuel as [|fuel IH]; intros k tp acc Hk Hfuel Hcap; [lia |].
  cbn [pages_loop].
  destruct (UserGetRecentTracks (LastFmClient s)
              (RecentTracks_params s limit from to k))
    as [page|err] eqn:Hpage.
  2: { exists [], (Err err).
       split; [reflexivity |]. split; [cbn [length]; lia |]. split; [done |].
       left. exists err. cbn [length]. by rewrite Z.add_0_r. }
  pose proof (Hbound _ _ Hpage) as Htotal.
  assert (Htp : (if negb (TotalPages page =? tp)
                 then TotalPages page else tp) = TotalPages page).
  { destruct (Z.eqb_spec (TotalPages page) tp); simpl; congruence. }
  rewrite Htp.
  destruct (decide (limit <= 0 \/
                    Z.of_nat (length acc + length (Tracks page)) <= limit))
    as [Hall|Hcut].
  - rewrite add_tracks_all by exact Hall.
    destruct (Z.leb_spec (TotalPages page) k) as [Hle|Hlt].
    + exists [], (Ok (acc ++ map scrobble_of_track (Tracks page))).
      split; [reflexivity |]. split; [cbn [length]; lia |]. split; [done |].
      right. exists page.
      cbn [length app map concat]. rewrite Z.add_0_r, app_nil_r.
      split; [exact Hpage |]. split.
      * rewrite up_to_fits; [reflexivity |].
        by rewrite length_app, length_map.
      * right. by split.
    + rewrite wrap64_small by (unfold max_int64 in *; lia).
      destruct (IH (k + 1) (TotalPages page)
                  (acc ++ map scrobble_of_track (Tracks page)))
        as (passed & r & Hrun & Hcount & Hpassed & Hexit);
        [lia | lia | by rewrite length_app, length_map |].
      exists (page :: passed), r.
      assert (Hnext : k + Z.of_nat (length (page :: passed))
                      = k + 1 + Z.of_nat (length passed))
        by (cbn [length]; lia).
      rewrite Hnext.
      assert (Hlen : forall pages : list RecentTracks,
                (length acc + length (concat (map Tracks (page :: pages))))%nat
                = (length (acc ++ map scrobble_of_track (Tracks page))
                   + length (concat (map Tracks pages)))%nat).
      { intros pages. cbn [map concat].
        rewrite !length_app, length_map. lia. }
      split; [exact Hrun |]. split; [exact Hcount |]. split.
      * intros [|i] pg Hi.
        -- injection Hi as <-. rewrite Z.add_0_r.
           split; [exact Hpage |]. split; [exact Hlt |].
           cbn [take map concat]. by rewrite app_nil_r.
        -- cbn [lookup list_lookup] in Hi.
           destruct (Hpassed i pg Hi) as (Hreq & Hmore & Hfit).
           replace (k + Z.of_nat (S i)) with (k + 1 + Z.of_nat i) by lia.
           split; [exact Hreq |]. split; [exact Hmore |].
           change (take (S (S i)) (page :: passed))
             with (page :: take (S i) passed).
           by rewrite Hlen.
      * destruct Hexit as [Herr | (last & Hreq & -> & Hwhy)]; [by left |].
        right. exists last. split; [exact Hreq |].
        change ((page :: passed) ++ [last]) with (page :: (passed ++ [last])).
        rewrite Hlen. split; [| exact Hwhy].
        cbn [map concat].
        by rewrite (map_app scrobble_of_track (Tracks page)), app_assoc.
  - assert (Hpos : 0 < limit) by lia.
    rewrite add_tracks_cut by lia.
    exists [], (Ok (take (Z.to_nat limit)
                      (acc ++ map scrobble_of_track (Tracks page)))).
    split; [reflexivity |]. split; [cbn [length]; lia |]. split; [done |].
    right. exists page.
    cbn [length app map concat]. rewrite Z.add_0_r, app_nil_r.
    split; [exact Hpage |]. split.
    + unfold up_to. by destruct (Z.leb_spec limit 0); [lia |].
    + left. lia.
Qed.

(** C7: when the total number of pages that the service reports never
    exceeds [bound], [LastFmSink.GetScrobbles] returns after at most
    [max bound 1] requests, and what it has done is this. It has asked
    for the pages 1, 2, ... of the window in turn. Every page but the last
    one asked for was served, reported more pages than had been fetched,
    and was appended whole, its tracks fitting the limit. The last
    request ends the run in one of three ways: the service answers with an
    error, which is returned; or the page holds a track for which the
    limit leaves no room, and the first [limit] scrobbles are returned; or
    the number of the page has reached the total that the page reports,
    the window being exhausted, and the scrobbles of all the tracks
    fetched are returned. The scrobbles returned are those of the tracks
    in the order of the pages, and when the limit is positive there are at
    most [limit] of them. The total is an [int64], so that the bound
    [max_int64] fits every service. *)
Theorem lastfm_get_scrobbles_terminates s limit from to bound :
  (forall p page, UserGetRecentTracks (LastFmClient s) p = Ok page ->
                  TotalPages page <= bound) ->
  bound <= max_int64 ->
  exists (passed : list RecentTracks) (r : Result (list Scrobble)),
    LastFmSink_GetScrobbles (Z.to_nat (Z.max bound 1)) s limit from to = Some r /\
    1 + Z.of_nat (length passed) <= Z.max bound 1 /\
    (forall i page, passed !! i = Some page ->
       UserGetRecentTracks (LastFmClient s)
         (RecentTracks_params s limit from to (1 + Z.of_nat i)) = Ok page /\
       1 + Z.of_nat i < TotalPages page /\
       (limit <= 0 \/
        Z.of_nat (length (concat (map Tracks (take (S i) passed)))) <= limit)) /\
    ((exists err,
        UserGetRecentTracks (LastFmClient s)
          (RecentTracks_params s limit from to (1 + Z.of_nat (length passed)))
        = Err err /\
        r = Err err) \/
     (exists last,
        UserGetRecentTracks (LastFmClient s)
          (RecentTracks_params s limit from to (1 + Z.of_nat (length passed)))
        = Ok last /\
        r = Ok (up_to limit
                  (map scrobble_of_track
                     (concat (map Tracks (passed ++ [last]))))) /\
        (0 < limit <
           Z.of_nat (length (concat (map Tracks (passed ++ [last])))) \/
         (limit <= 0 \/
          Z.of_nat (length (concat (map Tracks (passed ++ [last])))) <= limit) /\
         TotalPages last <= 1 + Z.of_nat (length passed)))) /\
    (0 < limit -> forall l, r = Ok l -> Z.of_nat (length l) <= limit).
Proof.
  intros Hbound Hmax. unfold LastFmSink_GetScrobbles.
  destruct (pages_loop_run s limit from to bound Hbound Hmax
              (Z.to_nat (Z.max bound 1)) 1 1 [])
    as (passed & r & Hrun & Hcount & Hpassed & Hexit).
  - lia.
  - lia.
  - destruct (Z.le_gt_cases limit 0); [left | right]; simpl; lia.
  - exists passed, r.
    split; [exact Hrun |]. split; [exact Hcount |].
    split; [exact Hpassed |]. split; [exact Hexit |].
    intros Hpos l ->.
    destruct Hexit as [(err & _ & [=]) | (last & _ & [= ->] & _)].
    by apply up_to_length.
Qed.

Lemma service_total_pages p page :
  UserGetRecentTracks (LastFmClient service_sink) p = Ok page ->
  TotalPages page <= 3.
Proof.
  simpl. unfold service_recent_tracks.
  destruct (p !! "page") as [[?|n]|]; try discriminate.
  destruct ((1 <=? n) && (n <=? 3)) eqn:Hn; [| discriminate].
  apply andb_true_iff in Hn as [H1 H3].
  apply Z.leb_le in H1, H3.
  assert (Hcases : n = 1 \/ n = 2 \/ n = 3) by lia.
  destruct Hcases as [-> | [-> | ->]]; simpl; intros [= <-]; simpl; lia.
Qed.

(** The service of the examples, which reports three pages, asked for
    four scrobbles. *)
Lemma lastfm_get_scrobbles_terminates_witness :
  exists (passed : list RecentTracks) (r : Result (list Scrobble)),
    LastFmSink_GetScrobbles 3 service_sink 4 (time_Unix 0) far_future = Some r /\
    1 + Z.of_nat (length passed) <= 3 /\
    (forall i page, passed !! i = Some page ->
       UserGetRecentTracks (LastFmClient service_sink)
         (RecentTracks_params service_sink 4 (time_Unix 0) far_future
            (1 + Z.of_nat i)) = Ok page /\
       1 + Z.of_nat i < TotalPages page /\
       (4 <= 0 \/
        Z.of_nat (length (concat (map Tracks (take (S i) passed)))) <= 4)) /\
    ((exists err,
        UserGetRecentTracks (LastFmClient service_sink)
          (RecentTracks_params service_sink 4 (time_Unix 0) far_future
             (1 + Z.of_nat (length passed))) = Err err /\
        r = Err err) \/
     (exists last,
        UserGetRecentTracks (LastFmClient service_sink)
          (RecentTracks_params service_sink 4 (time_Unix 0) far_future
             (1 + Z.of_nat (length passed))) = Ok last /\
        r = Ok (up_to 4
                  (map scrobble_of_track
                     (concat (map Tracks (passed ++ [last]))))) /\
        (0 < 4 < Z.of_nat (length (concat (map Tracks (passed ++ [last])))) \/
         (4 <= 0 \/
          Z.of_nat (length (concat (map Tracks (passed ++ [last])))) <= 4) /\
         TotalPages last <= 1 + Z.of_nat (length passed)))) /\
    (0 < 4 -> forall l, r = Ok l -> Z.of_nat (length l) <= 4).
Proof.
  apply (lastfm_get_scrobbles_terminates service_sink 4 (time_Unix 0)
           far_future 3).
  - exact service_total_pages.
  - vm_compute. discriminate.
Defined.

(** That run, request by request: the first two pages are served, report
    three pages and are appended whole; the limit of four is then met, but
    only the first track of the third page, for which no room is left,
    ends the run. Asked without limit, the same three requests are made
    and the run ends because the third page is the last. *)
Example lastfm_get_scrobbles_run_example :
  map (fun number =>
         UserGetRecentTracks (LastFmClient service_sink)
           (RecentTracks_params service_sink 4 (time_Unix 0) far_future number))
      [1; 2; 3]
  = map Ok service_pages /\
  map TotalPages service_pages = [3; 3; 3] /\
  length (concat (map Tracks (take 2 service_pages))) = 4%nat /\
  length (concat (map Tracks service_pages)) = 5%nat /\
  LastFmSink_GetScrobbles 3 service_sink 4 (time_Unix 0) far_future
  = Some (Ok (up_to 4 (map scrobble_of_track
                         (concat (map Tracks service_pages))))) /\
  LastFmSink_GetScrobbles 2 service_sink 4 (time_Unix 0) far_future = None /\
  LastFmSink_GetScrobbles 3 service_sink 0 (time_Unix 0) far_future
  = Some (Ok (map scrobble_of_track (concat (map Tracks service_pages)))).
Proof. repeat split; vm_compute; reflexivity. Qed.

(** The service of the examples asked for four scrobbles, and asked
    without limit. *)
Example lastfm_get_scrobbles_examples :
  (LastFmSink_GetScrobbles 3 service_sink 4 (time_Unix 0) far_future =
   Some (Ok (map scrobble_of_track
               [recent "A, B" "five" 500; recent "A" "four" 400;
                recent "A" "three" 300; recent "A" "two" 200]))) /\
  (exists l, LastFmSink_GetScrobbles 3 service_sink 0 (time_Unix 0) far_future
             = Some (Ok l) /\ length l = 5%nat) /\
  Artists (scrobble_of_track (recent "A, B" "five" 500)) = ["A"; "B"].
Proof.
  split; [vm_compute; reflexivity |].
  split; [eexists; split; vm_compute; reflexivity | vm_compute; reflexivity].
Qed.

(** ** Configuration *)

Section ParseRegexesProperties.

Variable Regexp : Type.
Variable regexp_Compile : string -> Result Regexp.

Lemma parse_fold rules done parsed :
  Forall2 (config.parsed_from Regexp regexp_Compile)
          (List.filter (config.compiles Regexp regexp_Compile) done) parsed ->
  Forall2 (config.parsed_from Regexp regexp_Compile)
          (List.filter (config.compiles Regexp regexp_Compile) (done ++ rules))
          (fold_left (config.parse_step Regexp regexp_Compile) rules parsed).
Proof.
  revert done parsed. induction rules as [|r rules IH]; intros done parsed H.
  - simpl. by rewrite app_nil_r.
  - simpl. replace (done ++ r :: rules) with ((done ++ [r]) ++ rules)
      by (by rewrite <- app_assoc).
    apply IH. rewrite List.filter_app. simpl.
    unfold config.parse_step, config.compiles.
    destruct (regexp_Compile (config.Match r)) as [m|e] eqn:Hm; simpl.
    + apply Forall2_app; [exact H |]. constructor; [| constructor].
      unfold config.parsed_from. simpl. by rewrite Hm.
    + by rewrite app_nil_r.
Qed.

(** C6: [Config.ParseRegexes] returns, in the configured order, one parsed
    rule for each configured rule whose match pattern compiles, with the
    compiled pattern, the replacement and the three target flags of that
    rule; a rule whose pattern does not compile is left out, and the rules
    after it are still parsed. *)
Theorem parse_regexes_keeps_compiling_rules (c : config.Config) :
  Forall2 (config.parsed_from Regexp regexp_Compile)
          (List.filter (config.compiles Regexp regexp_Compile) (config.Regexes c))
          (config.ParseRegexes Regexp regexp_Compile c).
Proof.
  unfold config.ParseRegexes.
  apply (parse_fold (config.Regexes c) [] []). constructor.
Qed.

End ParseRegexesProperties.

(** Of the three rules of the example the second does not compile; the
    first and the third are parsed. *)
Example parse_regexes_example :
  config.ParseRegexes string compile_example config_example =
  [ config.mkParsedRegexReplace string " \(Remastered.*\)" "" false true false;
    config.mkParsedRegexReplace string " - Single$" "" false false true ].
Proof. vm_compute. reflexivity. Qed.

(** ** The playback tracker *)

Section TrackerProperties.

Variable MinPlaybackDuration : Duration.
Variable MinPlaybackPercent : Z.
Variable ShortTrackFloor : Duration.
Variable Transform : tracker.Identity -> option tracker.Identity.

(** A tick on the session it belongs to: the session keeps its identity;
    a scrobbled session stays scrobbled and emits nothing; a session not
    yet scrobbled either emits nothing and stays so, or emits one scrobble
    event and is scrobbled. *)
Lemma check_advance t snap sess :
  let r := tracker.check_threshold MinPlaybackDuration MinPlaybackPercent
             ShortTrackFloor snap (tracker.advance t snap sess) in
  tracker.reported (fst r) = tracker.reported sess /\
  (tracker.scrobbled sess = true ->
   snd r = [] /\ tracker.scrobbled (fst r) = true) /\
  (tracker.scrobbled sess = false ->
   (snd r = [] /\ tracker.scrobbled (fst r) = false) \/
   (exists e, snd r = [tracker.ScrobbleEvent e] /\
              tracker.scrobbled (fst r) = true)).
Proof.
  assert (Hadv : tracker.scrobbled (tracker.advance t snap sess)
                 = tracker.scrobbled sess /\
                 tracker.reported (tracker.advance t snap sess)
                 = tracker.reported sess).
  { unfold tracker.advance. by destruct (tracker.playing snap). }
  destruct Hadv as [Hs Hr].
  unfold tracker.check_threshold. rewrite Hs.
  destruct (tracker.scrobbled sess) eqn:Hsc; simpl.
  - repeat split; [exact Hr | by rewrite Hs | discriminate].
  - destruct (_ <=? _); simpl.
    + repeat split; [exact Hr | discriminate |]. intros _. right. eauto.
    + repeat split; [exact Hr | discriminate |]. intros _. left.
      split; [reflexivity | by rewrite Hs].
Qed.

(** One tick of identity [i] spends what it emits from the budget. *)
Lemma step_budget (i : tracker.Identity) st t :
  tracker.reports i t = true ->
  (tracker.count_scrobbles
     (snd (tracker.step MinPlaybackDuration MinPlaybackPercent
             ShortTrackFloor Transform st t))
   + tracker.budget i
       (fst (tracker.step MinPlaybackDuration MinPlaybackPercent
               ShortTrackFloor Transform st t))
   <= tracker.budget i st)%nat.
Proof.
  unfold tracker.reports, tracker.step.
  destruct (tracker.snapshot t) as [snap|]; [| discriminate].
  intros Hi%bool_decide_eq_true.
  assert (Hopen : (tracker.count_scrobbles
                     (snd (tracker.open_session Transform t snap))
                   + tracker.budget i
                       (fst (tracker.open_session Transform t snap)) <= 1)%nat).
  { unfold tracker.open_session.
    destruct (tracker.playing snap); [| simpl; lia].
    destruct (Transform (tracker.identity snap)); simpl; [| lia].
    rewrite Hi. rewrite decide_True by done. simpl. lia. }
  destruct st as [sess|]; [| exact Hopen].
  destruct (decide (tracker.reported sess = tracker.identity snap)) as [Hr|Hr].
  - destruct (check_advance t snap sess) as (Hrep & Hdone & Hnot).
    cbn [fst snd]. unfold tracker.budget.
    rewrite !decide_True by congruence.
    destruct (tracker.scrobbled sess).
    + destruct Hdone as [-> ->]; [reflexivity |]. simpl. lia.
    + destruct Hnot as [[-> ->] | (e & -> & ->)]; [reflexivity | |];
        unfold tracker.count_scrobbles; simpl; lia.
  - unfold tracker.budget at 2. rewrite decide_False by congruence.
    exact Hopen.
Qed.

Lemma run_budget (i : tracker.Identity) ticks st :
  forallb (tracker.reports i) ticks = true ->
  (tracker.count_scrobbles
     (snd (tracker.run MinPlaybackDuration MinPlaybackPercent
             ShortTrackFloor Transform st ticks))
   <= tracker.budget i st)%nat.
Proof.
  revert st. induction ticks as [|t rest IH]; intros st; simpl.
  - intros _. unfold tracker.count_scrobbles. simpl. lia.
  - intros [Ht Hrest]%andb_true_iff.
    pose proof (step_budget i st t Ht) as Hstep.
    pose proof (IH (fst (tracker.step MinPlaybackDuration MinPlaybackPercent
                           ShortTrackFloor Transform st t)) Hrest) as Hrun.
    unfold tracker.count_scrobbles in *.
    rewrite filter_app, length_app. lia.
Qed.

(** C8: over ticks that all report the same identity, at most one scrobble
    event is emitted, whatever the tracker held before; when the session
    of that identity is not yet scrobbled and the first tick brings its
    accumulated play time to the threshold, exactly one scrobble event is
    emitted over all the ticks; and once the session is scrobbled the
    ticks emit none. *)
Theorem tracker_scrobbles_once_per_session (i : tracker.Identity) st ticks :
  forallb (tracker.reports i) ticks = true ->
  (tracker.count_scrobbles
     (snd (tracker.run MinPlaybackDuration MinPlaybackPercent
             ShortTrackFloor Transform st ticks)) <= 1)%nat /\
  (forall sess t rest snap,
     st = Some sess -> ticks = t :: rest ->
     tracker.reported sess = i -> tracker.scrobbled sess = false ->
     tracker.snapshot t = Some snap ->
     tracker.threshold MinPlaybackDuration MinPlaybackPercent ShortTrackFloor
       (tracker.total snap)
     <= tracker.accumulated (tracker.advance t snap sess) ->
     tracker.count_scrobbles
       (snd (tracker.run MinPlaybackDuration MinPlaybackPercent
               ShortTrackFloor Transform st ticks)) = 1%nat) /\
  (forall sess,
     st = Some sess -> tracker.reported sess = i ->
     tracker.scrobbled sess = true ->
     tracker.count_scrobbles
       (snd (tracker.run MinPlaybackDuration MinPlaybackPercent
               ShortTrackFloor Transform st ticks)) = 0%nat).
Proof.
  intros Hticks. pose proof (run_budget i ticks st Hticks) as Hrun.
  split; [| split].
  - assert (tracker.budget i st <= 1)%nat; [| lia].
    unfold tracker.budget. destruct st as [sess|]; [| lia].
    destruct (decide _); [| lia]. destruct (tracker.scrobbled sess); lia.
  - intros sess t rest snap -> -> Hi Hs Hsnap Hth.
    simpl in Hticks. apply andb_true_iff in Hticks as [Ht Hrest].
    assert (Hid : tracker.reported sess = tracker.identity snap).
    { unfold tracker.reports in Ht. rewrite Hsnap in Ht.
      apply bool_decide_eq_true in Ht. congruence. }
    simpl. unfold tracker.step at 2. unfold tracker.step at 1.
    rewrite Hsnap. rewrite decide_True by exact Hid. simpl.
    assert (Hadv : tracker.scrobbled (tracker.advance t snap sess) = false).
    { unfold tracker.advance. by destruct (tracker.playing snap). }
    unfold tracker.check_threshold. rewrite Hadv.
    apply Z.leb_le in Hth. rewrite Hth. simpl.
    match goal with
    | |- context [tracker.run _ _ _ _ (Some ?s') rest] =>
        pose proof (run_budget i rest (Some s') Hrest) as Hafter
    end.
    unfold tracker.budget in Hafter. simpl in Hafter.
    assert (Hrep : tracker.reported (tracker.advance t snap sess) = i).
    { unfold tracker.advance. by destruct (tracker.playing snap). }
    rewrite decide_True in Hafter by exact Hrep.
    unfold tracker.count_scrobbles in *. simpl. lia.
  - intros sess -> Hi Hs. unfold tracker.budget in Hrun.
    rewrite decide_True, Hs in Hrun by exact Hi. lia.
Qed.

End TrackerProperties.

(** Five ticks of one track of 400 s under the policy of the examples. *)
Lemma tracker_scrobbles_once_per_session_witness :
  (tracker.count_scrobbles (snd (run_example None imagine_ticks)) <= 1)%nat.
Proof.
  apply (tracker_scrobbles_once_per_session (240 * Second) 50 (30 * Second)
           (fun i => Some i) imagine None imagine_ticks).
  vm_compute. reflexivity.
Defined.

(** The playback of the example: the threshold is 200 s; the track is
    announced at the first tick and scrobbled once, at the tick that brings
    the play time to 200 s; the two ticks after it emit nothing. *)
Example tracker_run_example :
  tracker.threshold (240 * Second) 50 (30 * Second) (Some (400 * Second))
    = 200 * Second /\
  snd (run_example None imagine_ticks) =
    [ tracker.NowPlayingEvent
        (mkScrobble ["John Lennon"] "Imagine" "Imagine" 0 (time_Unix 1000));
      tracker.ScrobbleEvent
        (mkScrobble ["John Lennon"] "Imagine" "Imagine" (200 * Second)
                    (time_Unix 1000)) ].
Proof. split; vm_compute; reflexivity. Qed.

(** The identity changes before the threshold is reached: the first
    session is discarded without a scrobble and the new identity is
    announced in the same tick. *)
Example tracker_identity_change_example :
  snd (run_example None
         [playing_tick 1000; playing_tick 1100; jealous_guy_tick 1200]) =
    [ tracker.NowPlayingEvent
        (mkScrobble ["John Lennon"] "Imagine" "Imagine" 0 (time_Unix 1000));
      tracker.NowPlayingEvent
        (mkScrobble ["John Lennon"] "Jealous Guy" "Imagine" 0 (time_Unix 1200)) ].
Proof. vm_compute. reflexivity. Qed.

(** Paused ticks leave the accumulated play time as it is; playing again
    resumes from the frozen value. *)
Example tracker_pause_example :
  tracker.accumulated <$>
    fst (run_example None
           [playing_tick 1000; playing_tick 1100; paused_tick 1200;
            paused_tick 1300]) = Some (100 * Second) /\
  tracker.accumulated <$>
    fst (run_example None
           [playing_tick 1000; playing_tick 1100; paused_tick 1200;
            paused_tick 1300; playing_tick 1400]) = Some (200 * Second).
Proof. split; vm_compute; reflexivity. Qed.
